(** * SMS relay: segmentation, command routing and ingestion

    A shallow embedding of [sms_api_server.py] and the properties of its
    encoding classifier, segmenter, command router, poller, conversational
    worker and history endpoint. *)

From Stdlib Require Import ZArith Lia.
From stdpp Require Import gmap strings list fin_maps pretty.

Open Scope Z_scope.

(** ** Python strings

    A Python [str] is a sequence of Unicode code points. *)

Abbreviation char := Z (only parsing).
Abbreviation str := (list Z) (only parsing).

Module Py.

(** An ASCII literal of the source, as code points. *)
Fixpoint lit (s : string) : str :=
  match s with
  | EmptyString => []
  | String a s' => Z.of_nat (Ascii.nat_of_ascii a) :: lit s'
  end.

Definition SP : char := 32.

(** [str.isspace] on one code point, which is also the class [\s] of [re]
    for [str] patterns: U+0009 to U+000D, U+001C to U+0020, U+0085, U+00A0,
    U+1680, U+2000 to U+200A, U+2028, U+2029, U+202F, U+205F and U+3000. *)
Definition isspace (c : char) : bool :=
  ((9 <=? c) && (c <=? 13)) || ((28 <=? c) && (c <=? 32))
  || (c =? 133) || (c =? 160) || (c =? 5760)
  || ((8192 <=? c) && (c <=? 8202))
  || (c =? 8232) || (c =? 8233) || (c =? 8239) || (c =? 8287) || (c =? 12288).

(** [re.sub(r'\s+', ' ', t)]: every maximal run of whitespace becomes one
    space.  [in_run] tells that the previous character was whitespace. *)
Fixpoint sub_ws (in_run : bool) (t : str) : str :=
  match t with
  | [] => []
  | c :: t' =>
      if isspace c
      then (if in_run then sub_ws true t' else SP :: sub_ws true t')
      else c :: sub_ws false t'
  end.

Fixpoint lstrip (t : str) : str :=
  match t with
  | [] => []
  | c :: t' => if isspace c then lstrip t' else t
  end.

Definition rstrip (t : str) : str := reverse (lstrip (reverse t)).

(** [t.rstrip()], front to back: a character is dropped when it is
    whitespace and nothing is left of what follows it. *)
Fixpoint rstrip_rec (t : str) : str :=
  match t with
  | [] => []
  | c :: t' =>
      match rstrip_rec t' with
      | [] => if isspace c then [] else [c]
      | r => c :: r
      end
  end.

(** [t.strip()] *)
Definition strip (t : str) : str := rstrip (lstrip t).

(** [t.split(' ')]: split at every single space; never the empty list. *)
Fixpoint split_sp (t : str) : list str :=
  match t with
  | [] => [[]]
  | c :: t' =>
      if c =? SP then [] :: split_sp t'
      else match split_sp t' with
           | w :: ws => (c :: w) :: ws
           | [] => [[c]]
           end
  end.

(** Truth value of a string: non-empty. *)
Definition truthy (t : str) : bool :=
  match t with [] => false | _ => true end.

End Py.

Arguments Py.isspace : simpl never.
Arguments Py.SP : simpl never.

(** ** Encoding classifier *)

(** The string [GSM_7BIT_CHARS], character by character, one line of the
    source per group: 27, 32, 33 and 32 characters, the last of them a
    second space. *)
Definition GSM_7BIT_CHARS : str :=
  [ 0x40; 0xa3; 0x24; 0xa5; 0xe8; 0xe9; 0xf9; 0xec; 0xf2; 0xc7; 0x0a; 0xd8;
    0xf8; 0x0d; 0xc5; 0xe5; 0x394; 0x5f; 0x3a6; 0x393; 0x39b; 0x3a9; 0x3a0;
    0x3a8; 0x3a3; 0x398; 0x39e;
    0x20; 0x21; 0x22; 0x23; 0xa4; 0x25; 0x26; 0x27; 0x28; 0x29; 0x2a; 0x2b;
    0x2c; 0x2d; 0x2e; 0x2f; 0x30; 0x31; 0x32; 0x33; 0x34; 0x35; 0x36; 0x37;
    0x38; 0x39; 0x3a; 0x3b; 0x3c; 0x3d; 0x3e; 0x3f;
    0xa1; 0x41; 0x42; 0x43; 0x44; 0x45; 0x46; 0x47; 0x48; 0x49; 0x4a; 0x4b;
    0x4c; 0x4d; 0x4e; 0x4f; 0x50; 0x51; 0x52; 0x53; 0x54; 0x55; 0x56; 0x57;
    0x58; 0x59; 0x5a; 0xc4; 0xd6; 0xd1; 0xdc; 0xa7; 0xbf;
    0x61; 0x62; 0x63; 0x64; 0x65; 0x66; 0x67; 0x68; 0x69; 0x6a; 0x6b; 0x6c;
    0x6d; 0x6e; 0x6f; 0x70; 0x71; 0x72; 0x73; 0x74; 0x75; 0x76; 0x77; 0x78;
    0x79; 0x7a; 0xe4; 0xf6; 0xf1; 0xfc; 0xe0; 0x20 ].

Definition GSM_7BIT_SET : gset Z := list_to_set GSM_7BIT_CHARS.

(** The loop of [is_gsm_7bit] over the characters of a string. *)
Fixpoint all_in_gsm (t : str) : bool :=
  match t with
  | [] => true
  | ch :: t' => if bool_decide (ch ∈ GSM_7BIT_SET) then all_in_gsm t' else false
  end.

Definition is_gsm_7bit (text : option str) : bool :=
  match text with
  | None => true
  | Some t => all_in_gsm t
  end.

Definition get_chunk_limit (text : option str) (is_multipart : bool) : nat :=
  let gsm := is_gsm_7bit text in
  if gsm then (if is_multipart then 153 else 160)%nat
  else (if is_multipart then 67 else 70)%nat.

(** ** Segmenter *)

(** The [for i in range(len(remaining_word), 0, -1)] loop: the first [i],
    counting down from [i], whose prefix fits its own multipart limit;
    [None] when the loop ends without [break]. *)
Fixpoint longest_fitting (remaining_word : str) (i : nat) : option nat :=
  match i with
  | O => None
  | S j =>
      let test_part := take i remaining_word in
      if (length test_part <=? get_chunk_limit (Some test_part) true)%nat
      then Some i
      else longest_fitting remaining_word j
  end.

(** The [while remaining_word] loop.  [fuel] bounds the number of iterations;
    [None] means the bound was reached. *)
Fixpoint split_long_word (fuel : nat) (remaining_word : str) : option (list str) :=
  match remaining_word with
  | [] => Some []
  | _ :: _ =>
      match fuel with
      | O => None
      | S fuel' =>
          match longest_fitting remaining_word (length remaining_word) with
          | Some i =>
              cons (take i remaining_word)
                <$> split_long_word fuel' (drop i remaining_word)
          | None => split_long_word fuel' remaining_word
          end
      end
  end.

(** The [for word in words] loop, from the state [(chunks, current_chunk)]. *)
Fixpoint pack_words (words : list str) (chunks : list str) (current_chunk : str)
  : option (list str * str) :=
  match words with
  | [] => Some (chunks, current_chunk)
  | word :: words' =>
      let test_chunk :=
        if Py.truthy current_chunk then current_chunk ++ Py.SP :: word else word in
      let chunk_limit := get_chunk_limit (Some test_chunk) true in
      if (length test_chunk <=? chunk_limit)%nat
      then pack_words words' chunks test_chunk
      else
        let chunks1 :=
          if Py.truthy current_chunk then chunks ++ [current_chunk] else chunks in
        if (get_chunk_limit (Some word) true <? length word)%nat
        then
          match split_long_word (length word) word with
          | Some parts => pack_words words' (chunks1 ++ parts) []
          | None => None
          end
        else pack_words words' chunks1 word
  end.

Definition normalize (t : str) : str := Py.strip (Py.sub_ws false t).

(** [chunk_text_smart]; [None] stands for a run whose character-splitting
    loop does not end, which [chunk_text_smart_total] rules out. *)
Definition chunk_text_smart (text : option str) : option (list str) :=
  match text with
  | None => Some []
  | Some t =>
      let text := normalize t in
      if negb (Py.truthy text) then Some []
      else
        let single_limit := get_chunk_limit (Some text) false in
        if (length text <=? single_limit)%nat then Some [text]
        else
          let words := Py.split_sp text in
          match pack_words words [] [] with
          | Some (chunks, current_chunk) =>
              Some (if Py.truthy current_chunk
                    then chunks ++ [current_chunk] else chunks)
          | None => None
          end
  end.

(** ** Conversation store, queues and observable effects *)

(** One entry of a history: [{role, text, ts, direction}]. *)
Record Turn := mkTurn {
  role : string;
  text : str;
  ts : Z;
  direction : string
}.

(** [SMSMessage], the item handed to API consumers. *)
Record SMSMessage := mkSMSMessage {
  msg_id : str;
  msg_phone_number : str;
  msg_message : str;
  msg_direction : string
}.

(** The lines written by [log]. *)
Inductive log_line :=
  | LogIn (phone txt : str)
  | LogAlreadyRegistered (phone : str)
  | LogRegistered (phone : str)
  | LogCleared (phone : str)
  | LogIgnored (phone : str)
  | LogChatCreateError (phone : str)
  | LogGeminiResponding (phone : str) (n : nat)
  | LogGeminiError (phone : str)
  | LogPollingError.

(** What a run leaves behind besides the store: log lines, writes of the two
    files (with the value written), and the calls of the router made by the
    poller (with the identifier of the message that caused the call). *)
Inductive event :=
  | Log (l : log_line)
  | SaveHistories (snapshot : gmap (list Z) (list Turn))
  | SaveProcessed (snapshot : gset (list Z))
  | Forward (sms_id phone body : str).

Section Pipeline.

(** The backend's chat object is opaque. *)
Context {chat : Type}.

(** [str.lower], Unicode case mapping, left abstract. *)
Variable str_lower : list Z → list Z.

Record state := mkState {
  histories : gmap (list Z) (list Turn);
  chats : gmap (list Z) chat;
  processed_sms : gset (list Z);
  send_queue : list (list Z * list Z);
  gemini_workers : list (list Z * list Z);
  new_message_queue : list SMSMessage;
  trace : list event
}.

Definition set_histories (h : gmap (list Z) (list Turn)) (st : state) : state :=
  mkState h (chats st) (processed_sms st) (send_queue st) (gemini_workers st)
          (new_message_queue st) (trace st).

Definition set_chats (c : gmap (list Z) chat) (st : state) : state :=
  mkState (histories st) c (processed_sms st) (send_queue st) (gemini_workers st)
          (new_message_queue st) (trace st).

Definition set_processed_sms (p : gset (list Z)) (st : state) : state :=
  mkState (histories st) (chats st) p (send_queue st) (gemini_workers st)
          (new_message_queue st) (trace st).

Definition set_gemini_workers (q : list (list Z * list Z)) (st : state) : state :=
  mkState (histories st) (chats st) (processed_sms st) (send_queue st) q
          (new_message_queue st) (trace st).

Definition emit (e : event) (st : state) : state :=
  mkState (histories st) (chats st) (processed_sms st) (send_queue st)
          (gemini_workers st) (new_message_queue st) (trace st ++ [e]).

Definition log (l : log_line) (st : state) : state := emit (Log l) st.

(** [save_histories]: one write of the history file; a failed write is
    caught inside and changes nothing else. *)
Definition save_histories (st : state) : state :=
  emit (SaveHistories (histories st)) st.

Definition save_processed_sms (st : state) : state :=
  emit (SaveProcessed (processed_sms st)) st.

(** [send_sms_raw]: [send_queue.put((phone_number, text))]. *)
Definition send_sms_raw (phone_number text : str) (st : state) : state :=
  mkState (histories st) (chats st) (processed_sms st)
          (send_queue st ++ [(phone_number, text)]) (gemini_workers st)
          (new_message_queue st) (trace st).

(** [gemini_workers.put((phone, txt))]. *)
Definition gemini_workers_put (phone txt : str) (st : state) : state :=
  set_gemini_workers (gemini_workers st ++ [(phone, txt)]) st.

(** [new_message_queue.put(message)]; the queue is unbounded. *)
Definition new_message_queue_put (m : SMSMessage) (st : state) : state :=
  mkState (histories st) (chats st) (processed_sms st) (send_queue st)
          (gemini_workers st) (new_message_queue st ++ [m]) (trace st).

(** [phone in histories] *)
Definition registered (phone : str) (st : state) : bool :=
  bool_decide (is_Some (histories st !! phone)).

(** *** Command router *)

Definition handle_incoming (phone text : option str) (st : state) : state :=
  match phone, text with
  | Some phone, Some text =>
      let txt := Py.strip text in
      let lower := str_lower txt in
      let st := log (LogIn phone txt) st in
      if bool_decide (lower = Py.lit "chat") then
        if registered phone st then
          let st := send_sms_raw phone
            (Py.lit "Your number is already registered. You can start chatting!") st in
          log (LogAlreadyRegistered phone) st
        else
          let st := set_histories (<[phone := []]> (histories st)) st in
          let st := save_histories st in
          let st := send_sms_raw phone
            (Py.lit "Your number has been registered successfully.") st in
          log (LogRegistered phone) st
      else if bool_decide (lower = Py.lit "clear") then
        let st :=
          if registered phone st
          then save_histories (set_histories (delete phone (histories st)) st)
          else st in
        let st :=
          if bool_decide (is_Some (chats st !! phone))
          then set_chats (delete phone (chats st)) st
          else st in
        let st := send_sms_raw phone (Py.lit "Chat history cleared successfully") st in
        log (LogCleared phone) st
      else if registered phone st then
        let st := send_sms_raw phone (Py.lit "Thinking...") st in
        gemini_workers_put phone txt st
      else
        log (LogIgnored phone) st
  | _, _ => st
  end.

(** *** Ingestion poller *)

(** One item of [termux-sms-list]; a field is [None] when its key is
    missing, which is what [sms.get] returns then.  A field that is present
    is a string: items that carry a value of another JSON type are outside
    this record. *)
Record sms := mkSms {
  sms__id : option (list Z);
  sms_number : option (list Z);
  sms_body : option (list Z);
  sms_type : option (list Z)
}.

(** The outcome of a piece of the loop body: it ran to its end, or raised. *)
Inductive outcome :=
  | Done (st : state)
  | Raised (st : state).

Definition final (o : outcome) : state :=
  match o with Done st | Raised st => st end.

(** The body of [for sms in sms_list].  [SMSMessage(...)] validates its
    [str] fields and raises when [phone] is [None]. *)
Definition poll_item (m : sms) (st : state) : outcome :=
  let sms_id := sms__id m in
  let phone := sms_number m in
  let body := default [] (sms_body m) in
  let sms_type := sms_type m in
  match sms_id with
  | Some sms_id =>
      if Py.truthy sms_id
         && negb (bool_decide (sms_id ∈ processed_sms st))
         && bool_decide (sms_type = Some (Py.lit "inbox"))
      then
        let st := set_processed_sms ({[ sms_id ]} ∪ processed_sms st) st in
        let st := save_processed_sms st in
        match phone with
        | None => Raised st
        | Some phone_number =>
            let message := mkSMSMessage sms_id phone_number body "inbound" in
            let st := new_message_queue_put message st in
            let st := emit (Forward sms_id phone_number body) st in
            Done (handle_incoming phone (Some body) st)
        end
      else Done st
  | None => Done st
  end.

Fixpoint poll_items (sms_list : list sms) (st : state) : outcome :=
  match sms_list with
  | [] => Done st
  | m :: rest =>
      match poll_item m st with
      | Done st' => poll_items rest st'
      | Raised st' => Raised st'
      end
  end.

(** One turn of [while not stop_event.is_set()] in [sms_polling_loop], on
    the list that [get_incoming_sms] returned. *)
Definition poll_cycle (sms_list : list sms) (st : state) : state :=
  match poll_items sms_list st with
  | Done st' => st'
  | Raised st' => log LogPollingError st'
  end.

(** The loop over successive polls. *)
Fixpoint sms_polling_loop (polls : list (list sms)) (st : state) : state :=
  match polls with
  | [] => st
  | sms_list :: polls' => sms_polling_loop polls' (poll_cycle sms_list st)
  end.

(** *** Conversational worker *)

(** What the backend answers during one job: the result of
    [client.chats.create], of sending the initial prompt, and of sending the
    user's text.  [None] is a raised exception; the reply carries
    [resp.text], which may be [None], and then [resp.text.strip()] raises. *)
Record backend := mkBackend {
  create_result : option chat;
  prompt_result : option unit;
  send_result : option (option (list Z))
}.

(** [ensure_chat]: [inr] is the exception it re-raises after logging. *)
Definition ensure_chat (b : backend) (phone : str) (st : state) : chat * state + state :=
  match chats st !! phone with
  | Some c => inl (c, st)
  | None =>
      match create_result b with
      | None => inr (log (LogChatCreateError phone) st)
      | Some c =>
          match prompt_result b with
          | None => inr (log (LogChatCreateError phone) st)
          | Some _ => inl (c, set_chats (<[phone := c]> (chats st)) st)
          end
      end
  end.

Fixpoint enqueue_chunks (phone : str) (chunks : list (list Z)) (st : state) : state :=
  match chunks with
  | [] => st
  | chunk :: chunks' => enqueue_chunks phone chunks' (send_sms_raw phone chunk st)
  end.

(** The [try] block of [gemini_worker_fn] for one job, with the clock
    reading [now]; the outer [option] is [None] only if the segmenter does
    not return. *)
Definition gemini_job (b : backend) (now : Z) (phone text : str) (st : state)
  : option state :=
  match ensure_chat b phone st with
  | inr st => Some (log (LogGeminiError phone) st)
  | inl (_, st) =>
      match send_result b with
      | None => Some (log (LogGeminiError phone) st)
      | Some None => Some (log (LogGeminiError phone) st)
      | Some (Some resp_text) =>
          let reply := Py.strip resp_text in
          let ts := now in
          let h := default [] (histories st !! phone) in
          let h := h ++ [mkTurn "user" text ts "inbound"] in
          let h := h ++ [mkTurn "assistant" reply (ts + 1) "outbound"] in
          let st := set_histories (<[phone := h]> (histories st)) st in
          let st := save_histories st in
          chunks ← chunk_text_smart (Some reply);
          let st := log (LogGeminiResponding phone (length chunks)) st in
          Some (enqueue_chunks phone chunks st)
      end
  end.

(** One turn of the worker's loop: take the next job, if any. *)
Definition gemini_worker_step (b : backend) (now : Z) (st : state) : option state :=
  match gemini_workers st with
  | [] => Some st
  | (phone, text) :: rest => gemini_job b now phone text (set_gemini_workers rest st)
  end.

(** *** History endpoint *)

Record ChatHistoryResponse := mkChatHistoryResponse {
  resp_phone_number : str;
  messages : list Turn;
  total_count : nat
}.

(** The slice [l[start:]]. *)
Definition slice_from {A} (start : Z) (l : list A) : list A :=
  let n := Z.of_nat (length l) in
  let s := if start <? 0 then Z.max 0 (start + n) else Z.min start n in
  drop (Z.to_nat s) l.

Definition get_history (phone_number : str) (limit : option Z) (st : state)
  : ChatHistoryResponse :=
  match histories st !! phone_number with
  | None => mkChatHistoryResponse phone_number [] 0
  | Some all =>
      let messages := all in
      let messages :=
        match limit with
        | Some l => if negb (l =? 0) then slice_from (- l) messages else messages
        | None => messages
        end in
      mkChatHistoryResponse phone_number messages (length all)
  end.

End Pipeline.

(** ** Sender worker and facade *)

(** How a call of [termux-sms-send] ends: return code 0, another return code,
    a timeout, or any other exception. *)
Inductive send_outcome :=
  | SendOk
  | SendFailed
  | SendTimeout
  | SendError.

(** The lines that the transport wrapper and the facade write with [log];
    they are kept apart from the trace of the store. *)
Inductive api_line :=
  | LogOut (phone text : list Z)
  | LogSendError (phone : list Z)
  | LogSendTimeout (phone : list Z)
  | LogQueued (phone : list Z) (n : nat).

(** [send_sms_termux]: every failure is caught, logged and answered with
    [False]. *)
Definition send_sms_termux (o : send_outcome) (phone_number text : list Z)
  : bool * api_line :=
  match o with
  | SendOk => (true, LogOut phone_number text)
  | SendFailed => (false, LogSendError phone_number)
  | SendTimeout => (false, LogSendTimeout phone_number)
  | SendError => (false, LogSendError phone_number)
  end.

Record StatusResponse := mkStatusResponse {
  resp_status : string;
  resp_message : list Z
}.

Section Facade.

Context {chat : Type}.

Definition set_send_queue (q : list (list Z * list Z)) (st : @state chat)
  : @state chat :=
  mkState (histories st) (chats st) (processed_sms st) q (gemini_workers st)
          (new_message_queue st) (trace st).

(** One turn of [while not stop_event.is_set()] in [sender_thread_fn], with
    the outcome [o] of the transport and the clock reading [now]; an empty
    queue is [queue.Empty].  The pause after a send is not modelled. *)
Definition sender_step (o : send_outcome) (now : Z) (st : @state chat)
  : list api_line * @state chat :=
  match send_queue st with
  | [] => ([], st)
  | (phone, text) :: rest =>
      let st := set_send_queue rest st in
      let (success, line) := send_sms_termux o phone text in
      if success then
        let ts := now in
        let h := default [] (histories st !! phone) in
        let h := h ++ [mkTurn "system" text ts "outbound"] in
        let st := set_histories (<[phone := h]> (histories st)) st in
        ([line], save_histories st)
      else ([line], st)
  end.

(** The sender over successive turns, each with its outcome and clock. *)
Fixpoint sender_run (turns : list (send_outcome * Z)) (st : @state chat)
  : list api_line * @state chat :=
  match turns with
  | [] => ([], st)
  | (o, now) :: turns' =>
      let (lines, st) := sender_step o now st in
      let (lines', st) := sender_run turns' st in
      (lines ++ lines', st)
  end.

(** [POST /send]; [None] only if the segmenter does not return. *)
Definition send_sms (phone_number message : list Z) (st : @state chat)
  : option (StatusResponse * list api_line * @state chat) :=
  chunks ← chunk_text_smart (Some message);
  let st := enqueue_chunks phone_number chunks st in
  Some (mkStatusResponse "success"
          (Py.lit "SMS queued for sending in "
             ++ Py.lit (pretty (length chunks)) ++ Py.lit " chunk(s)"),
        [LogQueued phone_number (length chunks)],
        st).

(** [POST /register/{phone_number}] *)
Definition register_number (phone_number : list Z) (st : @state chat)
  : StatusResponse * @state chat :=
  if registered phone_number st then
    (mkStatusResponse "info"
       (Py.lit "Phone number " ++ phone_number ++ Py.lit " is already registered"),
     st)
  else
    let st := set_histories (<[phone_number := []]> (histories st)) st in
    let st := save_histories st in
    let st := send_sms_raw phone_number
                (Py.lit "Your number has been registered successfully.") st in
    (mkStatusResponse "success"
       (Py.lit "Phone number " ++ phone_number ++ Py.lit " registered successfully"),
     st).

(** [DELETE /history/{phone_number}] *)
Definition clear_history (phone_number : list Z) (st : @state chat)
  : StatusResponse * @state chat :=
  let st :=
    if registered phone_number st
    then save_histories (set_histories (delete phone_number (histories st)) st)
    else st in
  let st :=
    if bool_decide (is_Some (chats st !! phone_number))
    then set_chats (delete phone_number (chats st)) st
    else st in
  let st := send_sms_raw phone_number
              (Py.lit "Chat history cleared successfully") st in
  (mkStatusResponse "success" (Py.lit "History cleared for " ++ phone_number), st).

(** [POST /chat/{phone_number}] *)
Definition send_chat_message (phone_number message : list Z) (st : @state chat)
  : StatusResponse * @state chat :=
  let st :=
    if registered phone_number st then st
    else save_histories (set_histories (<[phone_number := []]> (histories st)) st) in
  let st := send_sms_raw phone_number (Py.lit "Thinking...") st in
  let st := gemini_workers_put phone_number message st in
  (mkStatusResponse "success" (Py.lit "Message sent for AI processing"), st).

End Facade.

(** * Vocabulary of the properties *)

(** A string read left to right, [prev_sp] telling that the previous character
    was a space: the only whitespace is the space, and no space follows a
    space. *)
Fixpoint collapsed (prev_sp : bool) (s : str) : Prop :=
  match s with
  | [] => True
  | c :: s' =>
      if Py.isspace c then c = Py.SP ∧ prev_sp = false ∧ collapsed true s'
      else collapsed false s'
  end.

(** No space follows a space or ends the string; with [prev_sp = true] the
    string is moreover non-empty and does not start with a space. *)
Fixpoint spaced (prev_sp : bool) (s : str) : Prop :=
  match s with
  | [] => prev_sp = false
  | c :: s' =>
      if c =? Py.SP then prev_sp = false ∧ spaced true s' else spaced false s'
  end.

(** A segment fits the multipart limit of its own encoding. *)
Definition fits (s : str) : Prop :=
  (length s ≤ get_chunk_limit (Some s) true)%nat.

(** The length of [' '.join(l)], plus one. *)
Fixpoint weight (l : list (list Z)) : nat :=
  match l with
  | [] => O
  | s :: l' => S (length s + weight l')
  end.

(** The weight that the pending segment adds once it is emitted. *)
Definition pending (current_chunk : str) : nat :=
  match current_chunk with
  | [] => O
  | _ => S (length current_chunk)
  end.


(** The default alphabet of GSM 03.38 (3GPP TS 23.038), which the source's
    comments name: 128 code positions, here as Unicode code points.  It is
    only compared with [GSM_7BIT_CHARS]; no function of the source uses it. *)
Definition GSM_03_38_DEFAULT_ALPHABET : list Z :=
  [ 0x40; 0xa3; 0x24; 0xa5; 0xe8; 0xe9; 0xf9; 0xec; 0xf2; 0xc7; 0x0a; 0xd8;
    0xf8; 0x0d; 0xc5; 0xe5; 0x394; 0x5f; 0x3a6; 0x393; 0x39b; 0x3a9; 0x3a0;
    0x3a8; 0x3a3; 0x398; 0x39e; 0x1b; 0xc6; 0xe6; 0xdf; 0xc9;
    0x20; 0x21; 0x22; 0x23; 0xa4; 0x25; 0x26; 0x27; 0x28; 0x29; 0x2a; 0x2b;
    0x2c; 0x2d; 0x2e; 0x2f; 0x30; 0x31; 0x32; 0x33; 0x34; 0x35; 0x36; 0x37;
    0x38; 0x39; 0x3a; 0x3b; 0x3c; 0x3d; 0x3e; 0x3f;
    0xa1; 0x41; 0x42; 0x43; 0x44; 0x45; 0x46; 0x47; 0x48; 0x49; 0x4a; 0x4b;
    0x4c; 0x4d; 0x4e; 0x4f; 0x50; 0x51; 0x52; 0x53; 0x54; 0x55; 0x56; 0x57;
    0x58; 0x59; 0x5a; 0xc4; 0xd6; 0xd1; 0xdc; 0xa7;
    0xbf; 0x61; 0x62; 0x63; 0x64; 0x65; 0x66; 0x67; 0x68; 0x69; 0x6a; 0x6b;
    0x6c; 0x6d; 0x6e; 0x6f; 0x70; 0x71; 0x72; 0x73; 0x74; 0x75; 0x76; 0x77;
    0x78; 0x79; 0x7a; 0xe4; 0xf6; 0xf1; 0xfc; 0xe0 ].

(** Sample texts. *)

(** A smiley, a space and a word of a hundred [a]. *)
Definition smiley_then_word : list Z := 9786 :: 32 :: replicate 100 97.

(** Five words of 77 [a] each, separated by single spaces. *)
Definition five_words : list Z :=
  replicate 77 97 ++ 32 :: replicate 77 97 ++ 32 :: replicate 77 97
    ++ 32 :: replicate 77 97 ++ 32 :: replicate 77 97.

(** A hundred [a] and a no-break space (U+00A0). *)
Definition word_then_nbsp : list Z := replicate 100 97 ++ [160].

(** A word of 250 smileys. *)
Definition smileys : list Z := replicate 250 9786.

(** [str.lower] restricted to ASCII, a sample instance of the abstract
    [str_lower]. *)
Definition lower_ascii (t : list Z) : list Z :=
  map (λ c, if (65 <=? c) && (c <=? 90) then c + 32 else c) t.

(** The calls of the router that a trace records for one identifier. *)
Definition is_forward_of (sms_id : list Z) (e : event) : bool :=
  match e with
  | Forward i _ _ => bool_decide (i = sms_id)
  | _ => false
  end.

Fixpoint forwards (sms_id : list Z) (tr : list event) : nat :=
  match tr with
  | [] => O
  | e :: tr' => ((if is_forward_of sms_id e then 1 else 0) + forwards sms_id tr')%nat
  end.

(** The events that the router itself leaves: log lines and writes of the
    history file. *)
Definition router_event (e : event) : Prop :=
  match e with
  | Log _ | SaveHistories _ => True
  | _ => False
  end.

Definition is_log (e : event) : Prop :=
  match e with Log _ => True | _ => False end.

(** The backend call of a job fails: creating the chat or sending the
    initial prompt raises when the recipient has no chat yet, or sending the
    text raises. *)
Definition backend_fails {chat} (b : @backend chat) (phone : list Z)
    (st : @state chat) : Prop :=
  (chats st !! phone = None
   ∧ (create_result b = None ∨ prompt_result b = None))
  ∨ send_result b = None.

(** The number of calls still possible for an identifier: those made, plus
    one while the identifier is not in the processed set. *)
Definition forward_budget {chat} (sms_id : list Z) (st : @state chat) : nat :=
  (forwards sms_id (trace st)
   + (if bool_decide (sms_id ∈ processed_sms st) then 0 else 1))%nat.

(** Sample store: nothing registered, nothing seen, empty queues. *)
Definition empty_state : @state nat :=
  mkState ∅ ∅ ∅ [] [] [] [].

(** Sample recipient, message, backend and stores. *)
Definition sample_phone : list Z := Py.lit "+100".

Definition sample_sms : sms :=
  mkSms (Some (Py.lit "17")) (Some sample_phone) (Some (Py.lit "chat"))
        (Some (Py.lit "inbox")).

Definition failing_backend : @backend nat := mkBackend None None None.

Definition sample_turns : list Turn :=
  [ mkTurn "user" (Py.lit "one") 10 "inbound";
    mkTurn "assistant" (Py.lit "two") 11 "outbound";
    mkTurn "system" (Py.lit "three") 12 "outbound" ].

(** The sample recipient is registered, with three turns, and one job of its
    own waits for a worker. *)
Definition busy_state : @state nat :=
  mkState {[ sample_phone := sample_turns ]} ∅ ∅ []
          [(sample_phone, Py.lit "hi")] [] [].

(** [' '.join(l)] *)
Fixpoint join_sp (l : list (list Z)) : list Z :=
  match l with
  | [] => []
  | s :: l' =>
      match l' with
      | [] => s
      | _ :: _ => s ++ Py.SP :: join_sp l'
      end
  end.

(** Every string of [l] with a space in front, all in a row. *)
Fixpoint lead_sp (l : list (list Z)) : list Z :=
  match l with
  | [] => []
  | s :: l' => Py.SP :: s ++ lead_sp l'
  end.

(** The characters of a text that are not whitespace, in order. *)
Definition nonws (t : list Z) : list Z :=
  filter (λ c, Py.isspace c = false) t.

(** What [chunk_text_smart] returns after the loop: the segments closed so
    far, and the pending one if it is not empty. *)
Definition finish (chunks : list (list Z)) (current_chunk : list Z)
  : list (list Z) :=
  if Py.truthy current_chunk then chunks ++ [current_chunk] else chunks.

(** A segment as the segmenter makes them: not empty, with single spaces as
    its only whitespace, none of them first or last. *)
Definition tidy (s : list Z) : Prop :=
  collapsed true s ∧ spaced true s.

(** A tab, a line feed and two spaces. *)
Definition blank_text : list Z := [9; 10; 32; 32].

(** The printable ASCII characters that are not in [GSM_7BIT_CHARS]: the
    brackets, backslash, caret, backquote, braces, bar and tilde. *)
Definition ASCII_NOT_GSM : list Z := [91; 92; 93; 94; 96; 123; 124; 125; 126].

(** The messages of a queue of [SMSMessage] that carry one identifier. *)
Fixpoint published (sms_id : list Z) (q : list SMSMessage) : nat :=
  match q with
  | [] => O
  | m :: q' =>
      ((if bool_decide (msg_id m = sms_id) then 1 else 0) + published sms_id q')%nat
  end.

(** A transport failure of any kind. *)
Definition send_fails (o : send_outcome) : Prop := o ≠ SendOk.

(** The turn that the sender records for a segment sent at [now]. *)
Definition system_turn (text : list Z) (now : Z) : Turn :=
  mkTurn "system" text now "outbound".

(** An item that the poller passes over: no identifier, an empty one, or a
    type other than [inbox]. *)
Definition passed_over (m : sms) : Prop :=
  sms__id m = None ∨ sms__id m = Some [] ∨ sms_type m ≠ Some (Py.lit "inbox").

(** Sample items: one without a sender, one sent from the phone itself. *)
Definition sms_without_number : sms :=
  mkSms (Some (Py.lit "18")) None (Some (Py.lit "hello")) (Some (Py.lit "inbox")).

Definition sms_sent : sms :=
  mkSms (Some (Py.lit "19")) (Some sample_phone) (Some (Py.lit "chat"))
        (Some (Py.lit "sent")).

(** The sample recipient has a chat handle and a record without turns. *)
Definition chatting_state : @state nat :=
  mkState {[ sample_phone := [] ]} {[ sample_phone := 7%nat ]} ∅ [] [] [] [].

Definition replying_backend : @backend nat :=
  mkBackend None None (Some (Some (Py.lit " It's sunny, 25C "))).

Definition other_phone : list Z := Py.lit "+200".

(** Two segments for the sample recipient wait in the send queue, ahead of
    one for another recipient. *)
Definition queued_state : @state nat :=
  mkState ∅ ∅ ∅
          [(sample_phone, Py.lit "one"); (sample_phone, Py.lit "two");
           (other_phone, Py.lit "three")]
          [] [] [].

(** * Properties *)

(** ** Whitespace normalisation *)

Lemma isspace_SP : Py.isspace Py.SP = true.
Proof. reflexivity. Qed.

Lemma isspace_false_not_SP c : Py.isspace c = false → (c =? Py.SP) = false.
Proof.
  intros H. destruct (Z.eqb_spec c Py.SP) as [->|]; [|done].
  by rewrite isspace_SP in H.
Qed.

Lemma rstrip_rec_snoc_space t c :
  Py.isspace c = true → Py.rstrip_rec (t ++ [c]) = Py.rstrip_rec t.
Proof.
  intros Hc. induction t as [|a t IH]; simpl.
  - by rewrite Hc.
  - by rewrite IH.
Qed.

Lemma rstrip_rec_snoc_nonspace t c :
  Py.isspace c = false → Py.rstrip_rec (t ++ [c]) = t ++ [c].
Proof.
  intros Hc. induction t as [|a t IH]; simpl.
  - by rewrite Hc.
  - rewrite IH. by destruct (t ++ [c]) eqn:E; [destruct t; discriminate|].
Qed.

(** The front-to-back reading of [rstrip] agrees with the definition by
    reversal. *)
Lemma rstrip_rec_correct t : Py.rstrip t = Py.rstrip_rec t.
Proof.
  unfold Py.rstrip. induction t as [|c t IH] using rev_ind; [done|].
  rewrite reverse_snoc. simpl. destruct (Py.isspace c) eqn:Hc.
  - by rewrite rstrip_rec_snoc_space.
  - rewrite rstrip_rec_snoc_nonspace by done.
    by rewrite reverse_cons, reverse_involutive.
Qed.

Lemma sub_ws_collapsed t :
  collapsed true (Py.sub_ws true t) ∧ collapsed false (Py.sub_ws false t).
Proof.
  induction t as [|c t [IHt IHf]]; [done|].
  simpl. destruct (Py.isspace c) eqn:Hc; simpl.
  - auto.
  - by rewrite Hc.
Qed.

Lemma collapsed_weaken b s : collapsed true s → collapsed b s.
Proof.
  destruct s as [|c s]; [done|]. simpl.
  destruct (Py.isspace c); [|done]. by intros (_ & ? & _).
Qed.

Lemma lstrip_collapsed b s : collapsed b s → collapsed true (Py.lstrip s).
Proof.
  revert b. induction s as [|c s IH]; intros b; [done|].
  simpl. destruct (Py.isspace c) eqn:Hc.
  - intros (_ & _ & H). by eapply IH.
  - intros H. simpl. by rewrite Hc.
Qed.

Lemma rstrip_rec_spaced s b :
  collapsed b s → Py.rstrip_rec s ≠ [] → spaced b (Py.rstrip_rec s).
Proof.
  revert b. induction s as [|c s IH]; intros b; [done|].
  simpl. destruct (Py.isspace c) eqn:Hc.
  - intros (-> & -> & Hs). destruct (Py.rstrip_rec s) as [|a r] eqn:Er; [done|].
    intros _. simpl. split; [done|]. apply IH; done.
  - intros Hs Hne. apply isspace_false_not_SP in Hc.
    destruct (Py.rstrip_rec s) as [|a r] eqn:Er.
    + simpl. by rewrite Hc.
    + change (spaced b (c :: a :: r)). cbn [spaced]. rewrite Hc. by apply IH.
Qed.

(** The normalised text is empty, or it neither starts nor ends with a space
    and has no two spaces in a row. *)
Lemma normalize_spaced t : normalize t ≠ [] → spaced true (normalize t).
Proof.
  unfold normalize, Py.strip. rewrite rstrip_rec_correct.
  apply rstrip_rec_spaced. eapply lstrip_collapsed, sub_ws_collapsed.
Qed.

Lemma sub_ws_Forall (P : Z → Prop) b t :
  P Py.SP → Forall P t → Forall P (Py.sub_ws b t).
Proof.
  intros HSP Ht. revert b. induction Ht as [|c t Hc Ht IH]; intros b; [done|].
  simpl. destruct (Py.isspace c), b; auto.
Qed.

Lemma lstrip_Forall (P : Z → Prop) t : Forall P t → Forall P (Py.lstrip t).
Proof.
  induction 1 as [|c t Hc Ht IH]; [done|].
  simpl. destruct (Py.isspace c); auto.
Qed.

Lemma rstrip_rec_Forall (P : Z → Prop) t : Forall P t → Forall P (Py.rstrip_rec t).
Proof.
  induction 1 as [|c t Hc Ht IH]; [done|].
  simpl. destruct (Py.rstrip_rec t); [destruct (Py.isspace c)|]; auto.
Qed.

(** Normalisation only keeps characters of the text or puts spaces. *)
Lemma normalize_Forall (P : Z → Prop) t :
  P Py.SP → Forall P t → Forall P (normalize t).
Proof.
  intros HSP Ht. unfold normalize, Py.strip. rewrite rstrip_rec_correct.
  by apply rstrip_rec_Forall, lstrip_Forall, sub_ws_Forall.
Qed.

Lemma sub_ws_length b t : (length (Py.sub_ws b t) ≤ length t)%nat.
Proof.
  revert b. induction t as [|c t IH]; intros b; [done|].
  pose proof (IH true). pose proof (IH false).
  simpl. destruct (Py.isspace c), b; simpl; lia.
Qed.

Lemma lstrip_length t : (length (Py.lstrip t) ≤ length t)%nat.
Proof.
  induction t as [|c t IH]; [done|].
  simpl. destruct (Py.isspace c); simpl; lia.
Qed.

Lemma rstrip_rec_length t : (length (Py.rstrip_rec t) ≤ length t)%nat.
Proof.
  induction t as [|c t IH]; [done|].
  simpl. destruct (Py.rstrip_rec t); [destruct (Py.isspace c)|]; simpl in *; lia.
Qed.

Lemma normalize_length t : (length (normalize t) ≤ length t)%nat.
Proof.
  unfold normalize, Py.strip. rewrite rstrip_rec_correct.
  pose proof (rstrip_rec_length (Py.lstrip (Py.sub_ws false t))).
  pose proof (lstrip_length (Py.sub_ws false t)).
  pose proof (sub_ws_length false t). lia.
Qed.

Lemma sub_ws_id t :
  Forall (λ c, Py.isspace c = false) t → Py.sub_ws false t = t.
Proof.
  induction 1 as [|c t Hc Ht IH]; [done|]. simpl. by rewrite Hc, IH.
Qed.

Lemma lstrip_id t :
  Forall (λ c, Py.isspace c = false) t → Py.lstrip t = t.
Proof. destruct 1 as [|c t Hc Ht]; [done|]. simpl. by rewrite Hc. Qed.

Lemma rstrip_rec_id t :
  Forall (λ c, Py.isspace c = false) t → Py.rstrip_rec t = t.
Proof.
  induction 1 as [|c t Hc Ht IH]; [done|]. simpl. rewrite IH, Hc.
  by destruct t.
Qed.

(** A text without whitespace is its own normal form. *)
Lemma normalize_id t :
  Forall (λ c, Py.isspace c = false) t → normalize t = t.
Proof.
  intros Ht. unfold normalize, Py.strip.
  by rewrite rstrip_rec_correct, sub_ws_id, lstrip_id, rstrip_rec_id.
Qed.

(** ** Splitting on spaces *)

Lemma split_sp_nonnil t : Py.split_sp t ≠ [].
Proof.
  destruct t as [|c t]; [done|]. simpl.
  destruct (c =? Py.SP); [done|]. by destruct (Py.split_sp t).
Qed.

Lemma split_sp_weight t : weight (Py.split_sp t) = S (length t).
Proof.
  induction t as [|c t IH]; [done|]. simpl.
  destruct (c =? Py.SP).
  - simpl. by rewrite IH.
  - pose proof (split_sp_nonnil t).
    destruct (Py.split_sp t) as [|w ws]; [done|]. simpl in *. lia.
Qed.

Lemma split_sp_spaced t b :
  spaced b t →
  match Py.split_sp t with
  | [] => True
  | w :: ws => (b = true → w ≠ []) ∧ Forall (λ w, w ≠ []) ws
  end.
Proof.
  revert b. induction t as [|c t IH]; intros b; simpl.
  - intros ->. done.
  - destruct (c =? Py.SP).
    + intros [-> Ht]. split; [done|]. specialize (IH true Ht).
      pose proof (split_sp_nonnil t).
      destruct (Py.split_sp t) as [|w ws]; [done|].
      destruct IH as [Hw Hws]. constructor; auto.
    + intros Ht. specialize (IH false Ht).
      destruct (Py.split_sp t) as [|w ws]; [by split|].
      destruct IH as [_ Hws]. by split.
Qed.

(** The words of a normalised text are non-empty. *)
Lemma split_sp_normalize t :
  normalize t ≠ [] → Forall (λ w, w ≠ []) (Py.split_sp (normalize t)).
Proof.
  intros Hne. pose proof (split_sp_spaced _ _ (normalize_spaced t Hne)) as H.
  destruct (Py.split_sp (normalize t)) as [|w ws]; [done|].
  destruct H as [Hw Hws]. constructor; auto.
Qed.

Lemma split_sp_no_space t :
  Forall (λ c, Py.isspace c = false) t → Py.split_sp t = [t].
Proof.
  induction 1 as [|c t Hc Ht IH]; [done|]. simpl.
  by rewrite (isspace_false_not_SP c Hc), IH.
Qed.

(** ** Encoding classifier *)

Lemma all_in_gsm_Forall t :
  all_in_gsm t = true ↔ Forall (λ c, c ∈ GSM_7BIT_SET) t.
Proof.
  induction t as [|c t IH]; cbn [all_in_gsm].
  - split; [constructor|done].
  - rewrite Forall_cons. case_bool_decide as Hc.
    + rewrite IH. split; [auto|by intros [_ ?]].
    + split; [discriminate|intros [? _]; contradiction].
Qed.

Lemma limit_bounds s : (67 ≤ get_chunk_limit s true ≤ 153)%nat.
Proof. unfold get_chunk_limit. destruct (is_gsm_7bit s); lia. Qed.

Lemma limit_wide s : is_gsm_7bit s = false → get_chunk_limit s true = 67%nat.
Proof. unfold get_chunk_limit. by intros ->. Qed.

Lemma fits_nil : fits [].
Proof. unfold fits. pose proof (limit_bounds (Some [])). simpl. lia. Qed.

Lemma fits_153 s : fits s → (length s ≤ 153)%nat.
Proof. unfold fits. pose proof (limit_bounds (Some s)). lia. Qed.

Lemma fits_wide s : fits s → is_gsm_7bit (Some s) = false → (length s ≤ 67)%nat.
Proof. unfold fits. intros H Hw. by rewrite (limit_wide _ Hw) in H. Qed.

(** ** Character-level splitting of a long word *)

(** The countdown always breaks: a prefix of one character fits. *)
Lemma longest_fitting_Some w i :
  (1 ≤ i)%nat →
  ∃ j, longest_fitting w i = Some j ∧ (1 ≤ j ≤ i)%nat ∧ fits (take j w).
Proof.
  induction i as [|i IH]; [lia|]. intros _. cbn [longest_fitting].
  destruct (Nat.leb_spec (length (take (S i) w))
              (get_chunk_limit (Some (take (S i) w)) true)) as [Hfit|Hno].
  - exists (S i). split; [done|]. split; [lia|done].
  - destruct i as [|i].
    + exfalso. pose proof (limit_bounds (Some (take 1 w))).
      rewrite length_take in Hno. lia.
    + destruct IH as (j & Hj & Hr & Hf); [lia|].
      exists j. split; [done|]. split; [lia|done].
Qed.

Lemma split_long_word_cons fuel c w j :
  longest_fitting (c :: w) (length (c :: w)) = Some j →
  split_long_word (S fuel) (c :: w)
  = cons (take j (c :: w)) <$> split_long_word fuel (drop j (c :: w)).
Proof. intros Hj. cbn [split_long_word]. by rewrite Hj. Qed.

(** With as much fuel as the word has characters the loop ends; its pieces
    are non-empty, fit their own limit and concatenate to the word. *)
Lemma split_long_word_spec fuel w :
  (length w ≤ fuel)%nat →
  ∃ parts, split_long_word fuel w = Some parts ∧ concat parts = w
    ∧ Forall (λ p, p ≠ [] ∧ fits p) parts.
Proof.
  revert w. induction fuel as [|fuel IH]; intros w Hlen.
  - destruct w; [|simpl in Hlen; lia]. by exists [].
  - destruct w as [|c w]; [by exists []|].
    destruct (longest_fitting_Some (c :: w) (length (c :: w)))
      as (j & Hj & Hr & Hf); [simpl; lia|].
    rewrite (split_long_word_cons _ _ _ _ Hj).
    destruct (IH (drop j (c :: w))) as (parts & -> & Hcat & Hall).
    { rewrite length_drop. lia. }
    exists (take j (c :: w) :: parts). split; [done|]. split.
    + cbn [concat]. rewrite Hcat. apply take_drop.
    + constructor; [|done]. split; [|done].
      intros E. apply (f_equal length) in E. rewrite length_take in E.
      simpl in E. lia.
Qed.

(** More fuel than that changes nothing. *)
Lemma split_long_word_fuel fuel1 fuel2 w :
  (length w ≤ fuel1)%nat → (length w ≤ fuel2)%nat →
  split_long_word fuel1 w = split_long_word fuel2 w.
Proof.
  revert fuel2 w. induction fuel1 as [|fuel1 IH]; intros fuel2 w H1 H2.
  - destruct w; [by destruct fuel2|simpl in H1; lia].
  - destruct w as [|c w]; [by destruct fuel2|].
    destruct fuel2 as [|fuel2]; [simpl in H2; lia|].
    destruct (longest_fitting_Some (c :: w) (length (c :: w)))
      as (j & Hj & Hr & Hf); [simpl; lia|].
    rewrite (split_long_word_cons fuel1 _ _ _ Hj), (split_long_word_cons fuel2 _ _ _ Hj).
    rewrite (IH fuel2); [done|rewrite length_drop; lia|rewrite length_drop; lia].
Qed.

(** ** Word packing *)

Lemma weight_app l1 l2 : weight (l1 ++ l2) = (weight l1 + weight l2)%nat.
Proof. induction l1 as [|s l1 IH]; simpl; lia. Qed.

Lemma weight_concat l : weight l = (length (concat l) + length l)%nat.
Proof. induction l as [|s l IH]; simpl; [done|]. rewrite length_app. lia. Qed.

Lemma weight_pending chunks cur :
  weight (if Py.truthy cur then chunks ++ [cur] else chunks)
  = (weight chunks + pending cur)%nat.
Proof. destruct cur; simpl; [lia|]. rewrite weight_app. simpl. lia. Qed.

Lemma Forall_fits_pending chunks cur :
  Forall fits chunks → fits cur →
  Forall fits (if Py.truthy cur then chunks ++ [cur] else chunks).
Proof.
  intros Hc Hcur. destruct (Py.truthy cur); [|done].
  apply Forall_app. split; [done|]. by constructor.
Qed.

(** The loop over the words ends, and keeps every segment within the limit
    of its own encoding. *)
Lemma pack_words_spec words chunks cur :
  Forall fits chunks → fits cur →
  ∃ chunks' cur', pack_words words chunks cur = Some (chunks', cur')
    ∧ Forall fits chunks' ∧ fits cur'.
Proof.
  revert chunks cur. induction words as [|word words IH]; intros chunks cur Hc Hcur.
  - by exists chunks, cur.
  - cbn [pack_words].
    set (test_chunk := if Py.truthy cur then cur ++ Py.SP :: word else word).
    destruct (Nat.leb_spec (length test_chunk)
                (get_chunk_limit (Some test_chunk) true)) as [Hfit|Hno].
    { by apply IH. }
    pose proof (Forall_fits_pending chunks cur Hc Hcur) as Hc1.
    destruct (Nat.ltb_spec (get_chunk_limit (Some word) true) (length word))
      as [Hlong|Hshort].
    + destruct (split_long_word_spec (length word) word) as (parts & -> & _ & Hp);
        [done|].
      apply IH; [|apply fits_nil].
      apply Forall_app. split; [done|].
      eapply Forall_impl; [exact Hp|]. by intros p [_ ?].
    + by apply IH.
Qed.

(** Nothing of the text is lost: the segments, joined by single spaces, are
    at least as long as the words joined by single spaces. *)
Lemma pack_words_weight words chunks cur chunks' cur' :
  Forall (λ w, w ≠ []) words →
  pack_words words chunks cur = Some (chunks', cur') →
  (weight chunks + pending cur + weight words ≤ weight chunks' + pending cur')%nat.
Proof.
  intros Hne. revert chunks cur.
  induction Hne as [|word words Hw Hne IH]; intros chunks cur.
  - cbn [pack_words]. intros [= <- <-]. simpl. lia.
  - cbn [pack_words].
    set (test_chunk := if Py.truthy cur then cur ++ Py.SP :: word else word).
    assert (Htest : pending test_chunk = (pending cur + S (length word))%nat).
    { subst test_chunk. destruct cur as [|a cur]; destruct word as [|b word];
        try done; simpl; rewrite ?length_app; simpl; lia. }
    destruct (Nat.leb_spec (length test_chunk)
                (get_chunk_limit (Some test_chunk) true)) as [Hfit|Hno].
    { intros H%IH. cbn [weight]. lia. }
    pose proof (weight_pending chunks cur) as Hc1.
    set (chunks1 := if Py.truthy cur then chunks ++ [cur] else chunks) in *.
    destruct (Nat.ltb_spec (get_chunk_limit (Some word) true) (length word))
      as [Hlong|Hshort].
    + destruct (split_long_word_spec (length word) word)
        as (parts & -> & Hcat & Hp); [done|].
      intros H%IH. rewrite weight_app, (weight_concat parts), Hcat in H.
      assert (1 ≤ length parts)%nat.
      { destruct parts; [simpl in Hcat; congruence|simpl; lia]. }
      cbn [weight]. simpl pending in H. lia.
    + intros H%IH. cbn [weight].
      assert (pending word = S (length word)) by (by destruct word).
      lia.
Qed.

(** ** The segmenter as a whole *)

Lemma chunk_text_smart_single t :
  normalize t ≠ [] →
  (length (normalize t) ≤ get_chunk_limit (Some (normalize t)) false)%nat →
  chunk_text_smart (Some t) = Some [normalize t].
Proof.
  intros Hne Hlen. unfold chunk_text_smart.
  destruct (normalize t) eqn:E; [done|]. cbn [Py.truthy negb].
  by apply Nat.leb_le in Hlen as ->.
Qed.

Lemma chunk_text_smart_multipart t :
  (get_chunk_limit (Some (normalize t)) false < length (normalize t))%nat →
  ∃ segs, chunk_text_smart (Some t) = Some segs
    ∧ Forall fits segs
    ∧ (S (length (normalize t)) ≤ weight segs)%nat.
Proof.
  intros Hlen. unfold chunk_text_smart.
  assert (Hne : normalize t ≠ []).
  { intros E. rewrite E in Hlen. simpl in Hlen. lia. }
  pose proof (split_sp_normalize t Hne) as Hwords.
  pose proof (split_sp_weight (normalize t)) as Hw.
  destruct (normalize t) as [|c text] eqn:E; [done|]. cbn [Py.truthy negb].
  apply Nat.leb_gt in Hlen as ->.
  destruct (pack_words_spec (Py.split_sp (c :: text)) [] [])
    as (chunks & cur & Hpack & Hc & Hcur); [constructor|apply fits_nil|].
  rewrite Hpack. eexists. split; [done|]. split.
  - by apply Forall_fits_pending.
  - rewrite weight_pending.
    pose proof (pack_words_weight _ _ _ _ _ Hwords Hpack) as H.
    rewrite Hw in H. cbn [weight pending] in H. lia.
Qed.

(** The segmenter returns on every input. *)
Lemma chunk_text_smart_total text : ∃ segs, chunk_text_smart text = Some segs.
Proof.
  destruct text as [t|]; [|by exists []].
  destruct (decide (normalize t = [])) as [E|Hne].
  { exists []. unfold chunk_text_smart. by rewrite E. }
  destruct (Nat.le_gt_cases (length (normalize t))
              (get_chunk_limit (Some (normalize t)) false)) as [Hle|Hgt].
  - eexists. by apply chunk_text_smart_single.
  - destruct (chunk_text_smart_multipart t Hgt) as (segs & ? & _). by exists segs.
Qed.

(** Whatever the text, every segment fits a single message of its own
    encoding. *)
Lemma chunk_text_smart_fits_one_message text segs :
  chunk_text_smart text = Some segs →
  Forall (λ s, (length s ≤ get_chunk_limit (Some s) false)%nat) segs.
Proof.
  destruct text as [t|]; [|by intros [= <-]].
  destruct (decide (normalize t = [])) as [E|Hne].
  { unfold chunk_text_smart. rewrite E. by intros [= <-]. }
  destruct (Nat.le_gt_cases (length (normalize t))
              (get_chunk_limit (Some (normalize t)) false)) as [Hle|Hgt].
  - rewrite (chunk_text_smart_single t Hne Hle). intros [= <-]. by constructor.
  - destruct (chunk_text_smart_multipart t Hgt) as (segs' & -> & Hfits & _).
    intros [= <-]. eapply Forall_impl; [exact Hfits|].
    intros s. unfold fits, get_chunk_limit. destruct (is_gsm_7bit (Some s)); lia.
Qed.


(** ** Segment limits *)

Lemma is_gsm_7bit_normalize t :
  is_gsm_7bit (Some t) = true → is_gsm_7bit (Some (normalize t)) = true.
Proof.
  cbn [is_gsm_7bit]. rewrite !all_in_gsm_Forall.
  apply normalize_Forall. by vm_compute.
Qed.

Lemma segment_limits s :
  fits s →
  (length s ≤ get_chunk_limit (Some s) true)%nat
  ∧ (is_gsm_7bit (Some s) = false → (length s ≤ 67)%nat)
  ∧ (is_gsm_7bit (Some s) = true → (length s ≤ 153)%nat).
Proof.
  intros H. split; [done|]. split.
  - by apply fits_wide.
  - intros _. by apply fits_153.
Qed.

(** C1, as amended.  When the normalised text has a character outside the
    GSM 7-bit set and is longer than 70, the segmenter returns, and every
    segment is within the multipart limit of its own encoding: at most 67
    when the segment itself has a character outside the set, at most 153
    when it has none. *)
Theorem chunk_text_smart_wide_limits t :
  is_gsm_7bit (Some (normalize t)) = false →
  (70 < length (normalize t))%nat →
  ∃ segs, chunk_text_smart (Some t) = Some segs
    ∧ Forall (λ s,
        (length s ≤ get_chunk_limit (Some s) true)%nat
        ∧ (is_gsm_7bit (Some s) = false → (length s ≤ 67)%nat)
        ∧ (is_gsm_7bit (Some s) = true → (length s ≤ 153)%nat)) segs.
Proof.
  intros Hwide Hlen.
  destruct (chunk_text_smart_multipart t) as (segs & Hrun & Hfits & _).
  { unfold get_chunk_limit. by rewrite Hwide. }
  exists segs. split; [done|].
  eapply Forall_impl; [exact Hfits|]. apply segment_limits.
Qed.

Lemma chunk_text_smart_wide_limits_witness :
  ∃ segs, chunk_text_smart (Some smiley_then_word) = Some segs
    ∧ Forall (λ s,
        (length s ≤ get_chunk_limit (Some s) true)%nat
        ∧ (is_gsm_7bit (Some s) = false → (length s ≤ 67)%nat)
        ∧ (is_gsm_7bit (Some s) = true → (length s ≤ 153)%nat)) segs.
Proof.
  apply (chunk_text_smart_wide_limits smiley_then_word).
  - vm_compute. reflexivity.
  - vm_compute. lia.
Defined.

(** C1 as it is worded fails: the text has a character outside the set and
    102 characters, normalised or not, and its second segment has 100. *)
Lemma chunk_text_smart_wide_over_67 :
  is_gsm_7bit (Some smiley_then_word) = false
  ∧ length smiley_then_word = 102%nat
  ∧ normalize smiley_then_word = smiley_then_word
  ∧ chunk_text_smart (Some smiley_then_word) = Some [[9786]; replicate 100 97]
  ∧ ¬ Forall (λ s, (length s ≤ 67)%nat) [[9786]; replicate 100 97].
Proof.
  repeat split; try (vm_compute; reflexivity).
  intros H. apply Forall_cons in H as [_ H]. apply Forall_cons in H as [H _].
  vm_compute in H. lia.
Qed.

(** The wide character counts only if it survives normalisation: a no-break
    space is outside the GSM 7-bit set and is whitespace, so this text of 101
    characters is sent as one segment of a hundred. *)
Lemma chunk_text_smart_wide_whitespace :
  is_gsm_7bit (Some word_then_nbsp) = false
  ∧ length word_then_nbsp = 101%nat
  ∧ chunk_text_smart (Some word_then_nbsp) = Some [replicate 100 97].
Proof. repeat split; vm_compute; reflexivity. Qed.




(** C4, as amended.  A text of at most 160 GSM 7-bit characters gives the
    normalised text as the only segment when that is non-empty, and no
    segment when it is empty. *)
Theorem chunk_text_smart_short_narrow t :
  (length t ≤ 160)%nat →
  is_gsm_7bit (Some t) = true →
  chunk_text_smart (Some t)
  = Some (if Py.truthy (normalize t) then [normalize t] else []).
Proof.
  intros Hlen Hgsm. apply is_gsm_7bit_normalize in Hgsm.
  pose proof (normalize_length t) as Hn.
  destruct (normalize t) as [|c text] eqn:E.
  - unfold chunk_text_smart. by rewrite E.
  - cbn [Py.truthy]. rewrite <- E. apply chunk_text_smart_single.
    + by rewrite E.
    + unfold get_chunk_limit. rewrite E, Hgsm. lia.
Qed.

Lemma chunk_text_smart_short_narrow_witness :
  chunk_text_smart (Some (Py.lit "  hello   world "))
  = Some (if Py.truthy (normalize (Py.lit "  hello   world "))
          then [normalize (Py.lit "  hello   world ")] else []).
Proof.
  apply (chunk_text_smart_short_narrow (Py.lit "  hello   world ")).
  - vm_compute. lia.
  - vm_compute. reflexivity.
Defined.

(** C4 as it is worded fails: the empty text and a text of one space have
    at most 160 characters, all in the GSM 7-bit set, and give no segment. *)
Lemma chunk_text_smart_empty_text :
  (length (@nil Z) ≤ 160)%nat
  ∧ is_gsm_7bit (Some []) = true
  ∧ chunk_text_smart (Some []) = Some []
  ∧ is_gsm_7bit (Some [Py.SP]) = true
  ∧ chunk_text_smart (Some [Py.SP]) = Some []
  ∧ ∀ seg : list Z, Some (@nil (list Z)) ≠ Some [seg].
Proof.
  repeat split; try (vm_compute; reflexivity); try (simpl; lia).
  intros seg. discriminate.
Qed.

(** ** A single long word of wide characters *)

Lemma all_wide_not_gsm s :
  s ≠ [] →
  Forall (λ c, bool_decide (c ∈ GSM_7BIT_SET) = false) s →
  is_gsm_7bit (Some s) = false.
Proof.
  intros Hne Hall. destruct Hall as [|c s Hc _]; [done|].
  cbn [is_gsm_7bit all_in_gsm]. by rewrite Hc.
Qed.

Lemma longest_fitting_wide r i :
  Forall (λ c, bool_decide (c ∈ GSM_7BIT_SET) = false) r →
  (1 ≤ i ≤ length r)%nat →
  longest_fitting r i = Some (i `min` 67)%nat.
Proof.
  intros Hall. induction i as [|i IH]; [lia|]. intros Hi.
  cbn [longest_fitting].
  assert (Hlen : length (take (S i) r) = S i) by (rewrite length_take; lia).
  rewrite limit_wide.
  2: { apply all_wide_not_gsm; [|by apply Forall_take].
       intros E. rewrite E in Hlen. done. }
  rewrite Hlen. destruct (Nat.leb_spec (S i) 67) as [Hle|Hgt].
  - f_equal. lia.
  - rewrite IH by lia. f_equal. lia.
Qed.

Lemma split_long_word_wide fuel r :
  Forall (λ c, bool_decide (c ∈ GSM_7BIT_SET) = false) r →
  r ≠ [] →
  split_long_word (S fuel) r
  = cons (take (length r `min` 67) r)
      <$> split_long_word fuel (drop (length r `min` 67) r).
Proof.
  intros Hall Hne. destruct r as [|c r]; [done|].
  apply split_long_word_cons, longest_fitting_wide; [done|]. simpl. lia.
Qed.

Lemma chunk_text_smart_unfold t :
  (get_chunk_limit (Some (normalize t)) false < length (normalize t))%nat →
  chunk_text_smart (Some t)
  = match pack_words (Py.split_sp (normalize t)) [] [] with
    | Some (chunks, current_chunk) =>
        Some (if Py.truthy current_chunk then chunks ++ [current_chunk] else chunks)
    | None => None
    end.
Proof.
  intros Hlen. unfold chunk_text_smart.
  destruct (normalize t) as [|c text] eqn:E; [simpl in Hlen; lia|].
  cbn [Py.truthy negb]. by apply Nat.leb_gt in Hlen as ->.
Qed.

(** C3.  A word of 250 characters, none of them whitespace and none in the
    GSM 7-bit set, passed alone, is cut into four segments: three of exactly
    67 characters and a last, shorter one of 49; every segment has at most 67
    characters, and their concatenation from left to right is the word. *)
Theorem chunk_text_smart_wide_word w :
  length w = 250%nat →
  Forall (λ c, Py.isspace c = false) w →
  Forall (λ c, bool_decide (c ∈ GSM_7BIT_SET) = false) w →
  ∃ segs last, chunk_text_smart (Some w) = Some (segs ++ [last])
    ∧ length segs = 3%nat
    ∧ Forall (λ s, length s = 67%nat) segs
    ∧ length last = 49%nat
    ∧ Forall (λ s, (length s ≤ 67)%nat) (segs ++ [last])
    ∧ concat (segs ++ [last]) = w.
Proof.
  intros Hlen Hns Hwide.
  assert (Hne : w ≠ []) by (intros ->; done).
  pose proof (all_wide_not_gsm w Hne Hwide) as Hw.
  rewrite chunk_text_smart_unfold; rewrite (normalize_id w Hns);
    [|unfold get_chunk_limit; rewrite Hw, Hlen; lia].
  rewrite (split_sp_no_space w Hns). cbn [pack_words Py.truthy].
  rewrite (limit_wide _ Hw), Hlen.
  change (250 <=? 67)%nat with false. change (67 <? 250)%nat with true.
  cbn iota.
  set (w1 := drop 67 w). set (w2 := drop 67 w1). set (w3 := drop 67 w2).
  assert (Hl1 : length w1 = 183%nat) by (subst w1; rewrite length_drop; lia).
  assert (Hl2 : length w2 = 116%nat) by (subst w2; rewrite length_drop; lia).
  assert (Hl3 : length w3 = 49%nat) by (subst w3; rewrite length_drop; lia).
  assert (Hw1 : Forall (λ c, bool_decide (c ∈ GSM_7BIT_SET) = false) w1)
    by (by apply Forall_drop).
  assert (Hw2 : Forall (λ c, bool_decide (c ∈ GSM_7BIT_SET) = false) w2)
    by (by apply Forall_drop).
  assert (Hw3 : Forall (λ c, bool_decide (c ∈ GSM_7BIT_SET) = false) w3)
    by (by apply Forall_drop).
  assert (Hsplit : split_long_word 250 w
                   = Some [take 67 w; take 67 w1; take 67 w2; w3]).
  { rewrite (split_long_word_wide 249 w Hwide Hne), Hlen.
    change (250 `min` 67)%nat with 67%nat. fold w1.
    rewrite (split_long_word_wide 248 w1 Hw1), Hl1 by (intros E; by rewrite E in Hl1).
    change (183 `min` 67)%nat with 67%nat. fold w2.
    rewrite (split_long_word_wide 247 w2 Hw2), Hl2 by (intros E; by rewrite E in Hl2).
    change (116 `min` 67)%nat with 67%nat. fold w3.
    rewrite (split_long_word_wide 246 w3 Hw3), Hl3 by (intros E; by rewrite E in Hl3).
    change (49 `min` 67)%nat with 49%nat.
    rewrite (nil_length_inv (drop 49 w3)) by (rewrite length_drop; lia).
    rewrite (take_ge w3 49) by lia. done. }
  rewrite Hsplit. cbn [pack_words Py.truthy app].
  exists [take 67 w; take 67 w1; take 67 w2], w3.
  split; [done|]. split; [done|]. split.
  { repeat constructor; rewrite length_take; lia. }
  split; [done|]. split.
  - cbn [app]. repeat apply Forall_cons_2; [..|apply Forall_nil_2];
      rewrite ?length_take; lia.
  - cbn [app concat]. rewrite app_nil_r.
    subst w3 w2 w1. by rewrite !take_drop.
Qed.

Lemma chunk_text_smart_wide_word_witness :
  ∃ segs last, chunk_text_smart (Some smileys) = Some (segs ++ [last])
    ∧ length segs = 3%nat
    ∧ Forall (λ s, length s = 67%nat) segs
    ∧ length last = 49%nat
    ∧ Forall (λ s, (length s ≤ 67)%nat) (segs ++ [last])
    ∧ concat (segs ++ [last]) = smileys.
Proof.
  apply (chunk_text_smart_wide_word smileys).
  - reflexivity.
  - apply Forall_replicate. reflexivity.
  - apply Forall_replicate. vm_compute. reflexivity.
Defined.

(** ** Classifier *)

Lemma get_chunk_limit_table text is_multipart :
  get_chunk_limit text is_multipart
  = match is_gsm_7bit text, is_multipart with
    | true, false => 160
    | true, true => 153
    | false, false => 70
    | false, true => 67
    end%nat.
Proof. unfold get_chunk_limit. by destruct (is_gsm_7bit text), is_multipart. Qed.

Lemma is_gsm_7bit_iff t :
  is_gsm_7bit (Some t) = true ↔ ∀ c, c ∈ t → c ∈ GSM_7BIT_SET.
Proof. cbn [is_gsm_7bit]. by rewrite all_in_gsm_Forall, Forall_forall. Qed.

Lemma is_gsm_7bit_None_empty :
  is_gsm_7bit None = true ∧ is_gsm_7bit (Some []) = true.
Proof. done. Qed.

Lemma GSM_7BIT_SET_size : size GSM_7BIT_SET = 123%nat.
Proof. by vm_compute. Qed.

Lemma GSM_03_38_DEFAULT_ALPHABET_size :
  length GSM_03_38_DEFAULT_ALPHABET = 128%nat
  ∧ size (list_to_set GSM_03_38_DEFAULT_ALPHABET : gset Z) = 128%nat.
Proof. split; by vm_compute. Qed.

(** The table of the source lacks five positions of the default alphabet:
    ESC and the letters AE, ae, sharp s and E acute. *)
Lemma GSM_7BIT_SET_missing :
  filter (λ c, c ∉ GSM_7BIT_SET) GSM_03_38_DEFAULT_ALPHABET
  = [0x1b; 0xc6; 0xe6; 0xdf; 0xc9]
  ∧ filter (λ c, c ∉ GSM_03_38_DEFAULT_ALPHABET) GSM_7BIT_CHARS = [].
Proof. split; by vm_compute. Qed.

(** C5, at the failing input.  E acute (U+00C9) is one of the 128 positions
    of the GSM 7-bit default alphabet, yet [is_gsm_7bit] answers [False] for
    it and [get_chunk_limit] gives the wide limits 70 and 67; the set that
    the source tests against has 123 elements. *)
Theorem get_chunk_limit_E_acute :
  0xc9 ∈ GSM_03_38_DEFAULT_ALPHABET
  ∧ is_gsm_7bit (Some [0xc9]) = false
  ∧ get_chunk_limit (Some [0xc9]) false = 70%nat
  ∧ get_chunk_limit (Some [0xc9]) true = 67%nat
  ∧ size GSM_7BIT_SET = 123%nat.
Proof.
  split; [|by vm_compute].
  apply list_elem_of_In. vm_compute. tauto.
Qed.

(** ** Command router *)

Lemma lit_clear_not_chat : Py.lit "clear" ≠ Py.lit "chat".
Proof. by vm_compute. Qed.

Section PipelineProperties.

Context {chat : Type}.
Variable str_lower : list Z → list Z.
Implicit Types (st : @state chat) (phone text : list Z).

Lemma registered_true st phone :
  registered phone st = true ↔ is_Some (histories st !! phone).
Proof. unfold registered. apply bool_decide_eq_true. Qed.

Lemma registered_false st phone :
  registered phone st = false ↔ histories st !! phone = None.
Proof.
  unfold registered. rewrite bool_decide_eq_false.
  by rewrite eq_None_not_Some.
Qed.

Lemma handle_incoming_chat_new st phone text :
  str_lower (Py.strip text) = Py.lit "chat" →
  histories st !! phone = None →
  handle_incoming str_lower (Some phone) (Some text) st
  = mkState (<[phone := []]> (histories st)) (chats st) (processed_sms st)
      (send_queue st
         ++ [(phone, Py.lit "Your number has been registered successfully.")])
      (gemini_workers st) (new_message_queue st)
      (trace st ++ [Log (LogIn phone (Py.strip text));
                    SaveHistories (<[phone := []]> (histories st));
                    Log (LogRegistered phone)]).
Proof.
  intros Hk Hnew. unfold handle_incoming. rewrite Hk.
  rewrite bool_decide_eq_true_2 by done.
  rewrite (proj2 (registered_false _ _)) by done.
  unfold log, save_histories, send_sms_raw, set_histories, emit.
  cbn [histories chats processed_sms send_queue gemini_workers
       new_message_queue trace].
  by rewrite <- !app_assoc.
Qed.

Lemma handle_incoming_chat_registered st phone text :
  str_lower (Py.strip text) = Py.lit "chat" →
  is_Some (histories st !! phone) →
  handle_incoming str_lower (Some phone) (Some text) st
  = mkState (histories st) (chats st) (processed_sms st)
      (send_queue st
         ++ [(phone,
              Py.lit "Your number is already registered. You can start chatting!")])
      (gemini_workers st) (new_message_queue st)
      (trace st ++ [Log (LogIn phone (Py.strip text));
                    Log (LogAlreadyRegistered phone)]).
Proof.
  intros Hk Hreg. unfold handle_incoming. rewrite Hk.
  rewrite bool_decide_eq_true_2 by done.
  rewrite (proj2 (registered_true _ _)) by done.
  unfold log, send_sms_raw, emit.
  cbn [histories chats processed_sms send_queue gemini_workers
       new_message_queue trace].
  by rewrite <- !app_assoc.
Qed.

Lemma handle_incoming_clear st phone text :
  str_lower (Py.strip text) = Py.lit "clear" →
  ∃ saves,
    handle_incoming str_lower (Some phone) (Some text) st
    = mkState (delete phone (histories st)) (delete phone (chats st))
        (processed_sms st)
        (send_queue st ++ [(phone, Py.lit "Chat history cleared successfully")])
        (gemini_workers st) (new_message_queue st)
        (trace st ++ Log (LogIn phone (Py.strip text)) :: saves
                  ++ [Log (LogCleared phone)])
    ∧ saves = (if registered phone st
               then [SaveHistories (delete phone (histories st))] else []).
Proof.
  intros Hk. eexists. split; [|done]. unfold handle_incoming. rewrite Hk.
  rewrite bool_decide_eq_false_2 by apply lit_clear_not_chat.
  rewrite bool_decide_eq_true_2 by done.
  assert (Hreg : registered phone (log (LogIn phone (Py.strip text)) st)
                 = registered phone st) by done.
  rewrite Hreg. clear Hreg.
  destruct (registered phone st) eqn:Hreg.
  - unfold log, save_histories, send_sms_raw, set_histories, set_chats, emit.
    cbn [histories chats processed_sms send_queue gemini_workers
         new_message_queue trace].
    case_bool_decide as Hc;
      cbn [histories chats processed_sms send_queue gemini_workers
           new_message_queue trace];
      rewrite <- ?app_assoc; cbn [app]; [done|].
    rewrite <- eq_None_not_Some in Hc. by rewrite (delete_id _ _ Hc).
  - apply registered_false in Hreg.
    unfold log, send_sms_raw, set_chats, emit.
    cbn [histories chats processed_sms send_queue gemini_workers
         new_message_queue trace].
    rewrite (delete_id _ _ Hreg).
    case_bool_decide as Hc;
      cbn [histories chats processed_sms send_queue gemini_workers
           new_message_queue trace];
      rewrite <- ?app_assoc; cbn [app]; [done|].
    rewrite <- eq_None_not_Some in Hc. by rewrite (delete_id _ _ Hc).
Qed.

Lemma handle_incoming_other_unregistered st phone text :
  str_lower (Py.strip text) ≠ Py.lit "chat" →
  str_lower (Py.strip text) ≠ Py.lit "clear" →
  histories st !! phone = None →
  handle_incoming str_lower (Some phone) (Some text) st
  = mkState (histories st) (chats st) (processed_sms st) (send_queue st)
      (gemini_workers st) (new_message_queue st)
      (trace st ++ [Log (LogIn phone (Py.strip text)); Log (LogIgnored phone)]).
Proof.
  intros Hchat Hclear Hnew. unfold handle_incoming.
  rewrite !bool_decide_eq_false_2 by done.
  assert (Hreg : registered phone (log (LogIn phone (Py.strip text)) st)
                 = registered phone st) by done.
  rewrite Hreg, (proj2 (registered_false _ _)) by done.
  unfold log, emit.
  cbn [histories chats processed_sms send_queue gemini_workers
       new_message_queue trace].
  by rewrite <- !app_assoc.
Qed.

Lemma handle_incoming_other_registered st phone text :
  str_lower (Py.strip text) ≠ Py.lit "chat" →
  str_lower (Py.strip text) ≠ Py.lit "clear" →
  is_Some (histories st !! phone) →
  handle_incoming str_lower (Some phone) (Some text) st
  = mkState (histories st) (chats st) (processed_sms st)
      (send_queue st ++ [(phone, Py.lit "Thinking...")])
      (gemini_workers st ++ [(phone, Py.strip text)]) (new_message_queue st)
      (trace st ++ [Log (LogIn phone (Py.strip text))]).
Proof.
  intros Hchat Hclear Hreg. unfold handle_incoming.
  rewrite !bool_decide_eq_false_2 by done.
  assert (Hr : registered phone (log (LogIn phone (Py.strip text)) st)
               = registered phone st) by done.
  by rewrite Hr, (proj2 (registered_true _ _)) by done.
Qed.

(** C6.  Keyed on the lower-cased, trimmed text.  [chat] from an unregistered
    recipient creates an empty record and enqueues the confirmation; from a
    registered one it leaves the record as it is and enqueues the other,
    "already registered" message; a second [chat] changes no record, and no
    registered recipient loses its record.  [clear] removes the recipient's
    record and chat handle, changes no record when there is none, and always
    enqueues its confirmation. *)
Theorem handle_incoming_commands st phone text :
  let run := handle_incoming str_lower (Some phone) (Some text) in
  (str_lower (Py.strip text) = Py.lit "chat" →
     (histories st !! phone = None →
        histories (run st) = <[phone := []]> (histories st)
        ∧ send_queue (run st)
          = send_queue st
              ++ [(phone, Py.lit "Your number has been registered successfully.")])
     ∧ (is_Some (histories st !! phone) →
        histories (run st) = histories st
        ∧ send_queue (run st)
          = send_queue st
              ++ [(phone,
                   Py.lit "Your number is already registered. You can start chatting!")])
     ∧ Py.lit "Your number has been registered successfully."
       ≠ Py.lit "Your number is already registered. You can start chatting!"
     ∧ chats (run st) = chats st
     ∧ gemini_workers (run st) = gemini_workers st
     ∧ histories (run (run st)) = histories (run st)
     ∧ (∀ p, is_Some (histories st !! p) → is_Some (histories (run st) !! p)))
  ∧ (str_lower (Py.strip text) = Py.lit "clear" →
     histories (run st) = delete phone (histories st)
     ∧ chats (run st) = delete phone (chats st)
     ∧ (histories st !! phone = None → histories (run st) = histories st)
     ∧ gemini_workers (run st) = gemini_workers st
     ∧ send_queue (run st)
       = send_queue st ++ [(phone, Py.lit "Chat history cleared successfully")]).
Proof.
  intros run. subst run. split.
  - intros Hk.
    assert (Hcases : histories st !! phone = None
                     ∨ is_Some (histories st !! phone)).
    { destruct (histories st !! phone); [right; eauto|by left]. }
    split; [|split; [|split; [by vm_compute|]]].
    + intros Hnew. by rewrite (handle_incoming_chat_new _ _ _ Hk Hnew).
    + intros Hreg. by rewrite (handle_incoming_chat_registered _ _ _ Hk Hreg).
    + destruct Hcases as [Hnew|Hreg].
      * rewrite (handle_incoming_chat_new _ _ _ Hk Hnew).
        rewrite (handle_incoming_chat_registered _ _ _ Hk);
          cbn [histories chats gemini_workers];
          [|by rewrite lookup_insert_eq].
        repeat split; try done.
        intros p Hp. rewrite lookup_insert_is_Some. destruct (decide (phone = p)); auto.
      * rewrite (handle_incoming_chat_registered _ _ _ Hk Hreg).
        rewrite (handle_incoming_chat_registered _ _ _ Hk);
          cbn [histories chats gemini_workers]; done.
  - intros Hk.
    destruct (handle_incoming_clear st phone text Hk) as (saves & -> & _).
    cbn [histories chats gemini_workers send_queue].
    repeat split; try done. intros Hnew. by apply delete_id.
Qed.

(** C9.  Text that is neither [chat] nor [clear], from a recipient without a
    record, changes neither map, nor the set of processed identifiers, nor
    either queue: two log lines are all it leaves. *)
Theorem handle_incoming_unregistered_ignored st phone text :
  str_lower (Py.strip text) ≠ Py.lit "chat" →
  str_lower (Py.strip text) ≠ Py.lit "clear" →
  histories st !! phone = None →
  let st' := handle_incoming str_lower (Some phone) (Some text) st in
  histories st' = histories st
  ∧ chats st' = chats st
  ∧ processed_sms st' = processed_sms st
  ∧ send_queue st' = send_queue st
  ∧ gemini_workers st' = gemini_workers st
  ∧ new_message_queue st' = new_message_queue st
  ∧ trace st'
    = trace st ++ [Log (LogIn phone (Py.strip text)); Log (LogIgnored phone)].
Proof.
  intros Hchat Hclear Hnew. cbn zeta.
  by rewrite (handle_incoming_other_unregistered _ _ _ Hchat Hclear Hnew).
Qed.

(** What the router never touches, whatever the text. *)
Lemma handle_incoming_frame st (ophone otext : option (list Z)) :
  ∃ evs,
    trace (handle_incoming str_lower ophone otext st) = trace st ++ evs
    ∧ Forall router_event evs
    ∧ processed_sms (handle_incoming str_lower ophone otext st) = processed_sms st
    ∧ new_message_queue (handle_incoming str_lower ophone otext st)
      = new_message_queue st.
Proof.
  destruct ophone as [phone|], otext as [text|];
    try (exists []; rewrite app_nil_r; by repeat split).
  destruct (decide (str_lower (Py.strip text) = Py.lit "chat")) as [Hchat|Hchat].
  { destruct (histories st !! phone) eqn:Hh.
    - rewrite (handle_incoming_chat_registered _ _ _ Hchat) by (by rewrite Hh).
      eexists. split; [done|]. by repeat constructor.
    - rewrite (handle_incoming_chat_new _ _ _ Hchat Hh).
      eexists. split; [done|]. by repeat constructor. }
  destruct (decide (str_lower (Py.strip text) = Py.lit "clear")) as [Hclear|Hclear].
  { destruct (handle_incoming_clear st phone text Hclear) as (saves & -> & Hs).
    eexists. split; [done|]. split; [|done].
    subst saves. destruct (registered phone st); by repeat constructor. }
  destruct (histories st !! phone) eqn:Hh.
  - rewrite (handle_incoming_other_registered _ _ _ Hchat Hclear) by (by rewrite Hh).
    eexists. split; [done|]. by repeat constructor.
  - rewrite (handle_incoming_other_unregistered _ _ _ Hchat Hclear Hh).
    eexists. split; [done|]. by repeat constructor.
Qed.

(** ** Ingestion poller *)

Lemma forwards_app sms_id tr1 tr2 :
  forwards sms_id (tr1 ++ tr2)
  = (forwards sms_id tr1 + forwards sms_id tr2)%nat.
Proof. induction tr1 as [|e tr1 IH]; simpl; [done|]. rewrite IH. lia. Qed.

Lemma forwards_router_events sms_id evs :
  Forall router_event evs → forwards sms_id evs = O.
Proof.
  induction 1 as [|e evs He _ IH]; [done|].
  simpl. rewrite IH. by destruct e.
Qed.

(** An identifier of the processed set is skipped, with no effect at all. *)
Lemma poll_item_seen st (m : sms) sms_id :
  sms__id m = Some sms_id →
  sms_id ∈ processed_sms st →
  poll_item str_lower m st = Done st.
Proof.
  intros Hid Hseen. unfold poll_item. rewrite Hid.
  rewrite (bool_decide_eq_true_2 _ Hseen). cbn [negb].
  by rewrite andb_false_r.
Qed.

(** A new inbound message: the identifier joins the set, the set is
    written, the message is published, and then the router is called. *)
Lemma poll_item_fresh st (m : sms) sms_id phone :
  sms__id m = Some sms_id →
  Py.truthy sms_id = true →
  sms_type m = Some (Py.lit "inbox") →
  sms_number m = Some phone →
  sms_id ∉ processed_sms st →
  poll_item str_lower m st
  = Done (handle_incoming str_lower (Some phone) (Some (default [] (sms_body m)))
            (mkState (histories st) (chats st) ({[ sms_id ]} ∪ processed_sms st)
               (send_queue st) (gemini_workers st)
               (new_message_queue st
                  ++ [mkSMSMessage sms_id phone (default [] (sms_body m)) "inbound"])
               (trace st
                  ++ [SaveProcessed ({[ sms_id ]} ∪ processed_sms st);
                      Forward sms_id phone (default [] (sms_body m))]))).
Proof.
  intros Hid Htruthy Htype Hphone Hfresh. unfold poll_item.
  rewrite Hid, Htruthy, Htype, Hphone.
  rewrite (bool_decide_eq_false_2 _ Hfresh), bool_decide_eq_true_2 by done.
  cbn [negb andb].
  unfold emit, new_message_queue_put, save_processed_sms, set_processed_sms, emit.
  cbn [histories chats processed_sms send_queue gemini_workers
       new_message_queue trace].
  by rewrite <- app_assoc.
Qed.

Lemma poll_item_budget st (m : sms) sms_id :
  (forward_budget sms_id (final (poll_item str_lower m st))
   ≤ forward_budget sms_id st)%nat.
Proof.
  unfold poll_item.
  destruct (sms__id m) as [i|] eqn:Hid; [|done].
  destruct (Py.truthy i && negb (bool_decide (i ∈ processed_sms st))
            && bool_decide (sms_type m = Some (Py.lit "inbox"))) eqn:Hc; [|done].
  apply andb_prop in Hc as [Hc _]. apply andb_prop in Hc as [_ Hfresh].
  apply negb_true_iff, bool_decide_eq_false in Hfresh.
  unfold forward_budget.
  destruct (sms_number m) as [phone|] eqn:Hphone.
  - cbn [final].
    destruct (handle_incoming_frame
                (emit (Forward i phone (default [] (sms_body m)))
                   (new_message_queue_put
                      (mkSMSMessage i phone (default [] (sms_body m)) "inbound")
                      (save_processed_sms
                         (set_processed_sms ({[ i ]} ∪ processed_sms st) st))))
                (Some phone) (Some (default [] (sms_body m))))
      as (evs & -> & Hevs & -> & _).
    cbn [emit new_message_queue_put save_processed_sms set_processed_sms
         histories chats processed_sms send_queue gemini_workers
         new_message_queue trace].
    rewrite !forwards_app, (forwards_router_events _ _ Hevs).
    cbn [forwards is_forward_of].
    destruct (decide (i = sms_id)) as [->|Hne].
    + rewrite (bool_decide_eq_true_2 (sms_id = sms_id)) by done.
      rewrite (bool_decide_eq_false_2 _ Hfresh).
      rewrite bool_decide_eq_true_2; [lia|].
      apply elem_of_union. left. by apply elem_of_singleton.
    + rewrite (bool_decide_eq_false_2 (i = sms_id)) by done.
      destruct (decide (sms_id ∈ processed_sms st)) as [Hin|Hout].
      * rewrite (bool_decide_eq_true_2 _ Hin).
        rewrite bool_decide_eq_true_2; [lia|]. apply elem_of_union. by right.
      * rewrite (bool_decide_eq_false_2 _ Hout).
        rewrite bool_decide_eq_false_2; [lia|].
        rewrite elem_of_union, elem_of_singleton. by intros [?|?].
  - cbn [final save_processed_sms set_processed_sms emit
         histories chats processed_sms send_queue gemini_workers
         new_message_queue trace].
    rewrite forwards_app. cbn [forwards is_forward_of].
    destruct (decide (sms_id ∈ processed_sms st)) as [Hin|Hout].
    + rewrite (bool_decide_eq_true_2 _ Hin).
      rewrite bool_decide_eq_true_2; [lia|]. apply elem_of_union. by right.
    + destruct (bool_decide (sms_id ∈ {[i]} ∪ processed_sms st));
        rewrite (bool_decide_eq_false_2 _ Hout); lia.
Qed.

Lemma poll_items_budget sms_list st sms_id :
  (forward_budget sms_id (final (poll_items str_lower sms_list st))
   ≤ forward_budget sms_id st)%nat.
Proof.
  revert st. induction sms_list as [|m rest IH]; intros st; [done|].
  cbn [poll_items]. pose proof (poll_item_budget st m sms_id) as Hm.
  destruct (poll_item str_lower m st) as [st'|st']; cbn [final] in *.
  - specialize (IH st'). lia.
  - done.
Qed.

Lemma poll_cycle_budget sms_list st sms_id :
  (forward_budget sms_id (poll_cycle str_lower sms_list st)
   ≤ forward_budget sms_id st)%nat.
Proof.
  unfold poll_cycle. pose proof (poll_items_budget sms_list st sms_id) as H.
  destruct (poll_items str_lower sms_list st) as [st'|st']; cbn [final] in H; [done|].
  unfold forward_budget, log, emit in *.
  cbn [trace processed_sms]. rewrite forwards_app. cbn [forwards is_forward_of]. lia.
Qed.

(** Whatever the transport returns, poll after poll, an identifier is
    forwarded at most once, and never once it is in the processed set. *)
Lemma sms_polling_loop_budget polls st sms_id :
  (forwards sms_id (trace (sms_polling_loop str_lower polls st))
   ≤ forward_budget sms_id st)%nat.
Proof.
  revert st. induction polls as [|sms_list polls IH]; intros st.
  - unfold forward_budget. cbn [sms_polling_loop]. lia.
  - cbn [sms_polling_loop].
    pose proof (poll_cycle_budget sms_list st sms_id). specialize (IH (poll_cycle str_lower sms_list st)). lia.
Qed.

Lemma poll_item_trace st (m : sms) :
  ∃ evs, trace (final (poll_item str_lower m st)) = trace st ++ evs.
Proof.
  unfold poll_item.
  destruct (sms__id m) as [i|]; [|exists []; by rewrite app_nil_r].
  destruct (Py.truthy i && negb (bool_decide (i ∈ processed_sms st))
            && bool_decide (sms_type m = Some (Py.lit "inbox")));
    [|exists []; by rewrite app_nil_r].
  destruct (sms_number m) as [phone|].
  - cbn [final].
    match goal with
    | |- context [handle_incoming _ ?p ?t ?s] =>
        destruct (handle_incoming_frame s p t) as (evs & -> & _)
    end.
    cbn [emit new_message_queue_put save_processed_sms set_processed_sms trace].
    rewrite <- !app_assoc. by eexists.
  - cbn [final save_processed_sms set_processed_sms emit trace]. by eexists.
Qed.

Lemma poll_cycle_trace sms_list st :
  ∃ evs, trace (poll_cycle str_lower sms_list st) = trace st ++ evs.
Proof.
  assert (Hitems : ∀ l (s : @state chat), ∃ evs,
             trace (final (poll_items str_lower l s)) = trace s ++ evs).
  { induction l as [|m rest IH]; intros s.
    - exists []. by rewrite app_nil_r.
    - cbn [poll_items]. destruct (poll_item_trace s m) as (evs & Hm).
      destruct (poll_item str_lower m s) as [s'|s']; cbn [final] in *.
      + destruct (IH s') as (evs' & ->). rewrite Hm, <- app_assoc. by eexists.
      + by eexists. }
  unfold poll_cycle. destruct (Hitems sms_list st) as (evs & Hevs).
  destruct (poll_items str_lower sms_list st) as [st'|st']; cbn [final] in Hevs.
  - by eexists.
  - unfold log, emit. cbn [trace]. rewrite Hevs, <- app_assoc. by eexists.
Qed.

Lemma poll_cycle_single st st' (m : sms) :
  poll_item str_lower m st = Done st' → poll_cycle str_lower [m] st = st'.
Proof. intros H. unfold poll_cycle. cbn [poll_items]. by rewrite H. Qed.

Lemma sms_polling_loop_trace polls st :
  ∃ evs, trace (sms_polling_loop str_lower polls st) = trace st ++ evs.
Proof.
  revert st. induction polls as [|sms_list polls IH]; intros st.
  - exists []. by rewrite app_nil_r.
  - cbn [sms_polling_loop]. destruct (IH (poll_cycle str_lower sms_list st)) as (evs & ->).
    destruct (poll_cycle_trace sms_list st) as (evs' & ->).
    rewrite <- app_assoc. by eexists.
Qed.

(** For an item that [SMSMessage] accepts, that is one with a sender: a new
    inbound message is forwarded after its identifier has joined the
    processed set and the set has been written; a message whose identifier
    is in the set is not forwarded; presented twice, in one poll or in two,
    and whatever is polled afterwards, the identifier is forwarded exactly
    once. *)
Theorem poll_forwards_once st (m m' : sms) sms_id phone :
  sms__id m = Some sms_id →
  Py.truthy sms_id = true →
  sms_type m = Some (Py.lit "inbox") →
  sms_number m = Some phone →
  sms_id ∉ processed_sms st →
  sms__id m' = Some sms_id →
  let body := default [] (sms_body m) in
  (∃ st1,
     poll_item str_lower m st
     = Done (handle_incoming str_lower (Some phone) (Some body) st1)
     ∧ sms_id ∈ processed_sms st1
     ∧ trace st1
       = trace st ++ [SaveProcessed (processed_sms st1); Forward sms_id phone body])
  ∧ (∀ st2, sms_id ∈ processed_sms st2 → poll_item str_lower m' st2 = Done st2)
  ∧ forwards sms_id (trace (final (poll_items str_lower [m; m'] st)))
    = S (forwards sms_id (trace st))
  ∧ ∀ polls,
      forwards sms_id (trace (sms_polling_loop str_lower ([m] :: [m'] :: polls) st))
      = S (forwards sms_id (trace st)).
Proof.
  intros Hid Htruthy Htype Hphone Hfresh Hid' body.
  pose proof (poll_item_fresh st m sms_id phone Hid Htruthy Htype Hphone Hfresh)
    as Hfirst. fold body in Hfirst.
  set (st1 := mkState (histories st) (chats st) ({[ sms_id ]} ∪ processed_sms st)
                (send_queue st) (gemini_workers st)
                (new_message_queue st ++ [mkSMSMessage sms_id phone body "inbound"])
                (trace st ++ [SaveProcessed ({[ sms_id ]} ∪ processed_sms st);
                              Forward sms_id phone body])) in *.
  destruct (handle_incoming_frame st1 (Some phone) (Some body))
    as (evs & Htr & Hevs & Hproc & _).
  assert (Hseen : sms_id ∈ processed_sms
                    (handle_incoming str_lower (Some phone) (Some body) st1)).
  { rewrite Hproc. subst st1. cbn [processed_sms].
    apply elem_of_union. left. by apply elem_of_singleton. }
  assert (Hcount : forwards sms_id
                     (trace (handle_incoming str_lower (Some phone) (Some body) st1))
                   = S (forwards sms_id (trace st))).
  { rewrite Htr. subst st1. cbn [trace].
    rewrite !forwards_app, (forwards_router_events _ _ Hevs).
    cbn [forwards is_forward_of]. rewrite bool_decide_eq_true_2 by done. lia. }
  split; [|split; [|split]].
  - exists st1. split; [done|]. split; [|done].
    subst st1. cbn [processed_sms].
    apply elem_of_union. left. by apply elem_of_singleton.
  - intros st2 Hin. by apply poll_item_seen with sms_id.
  - cbn [poll_items]. rewrite Hfirst.
    by rewrite (poll_item_seen _ m' sms_id Hid' Hseen).
  - intros polls. cbn [sms_polling_loop].
    rewrite (poll_cycle_single _ _ _ Hfirst).
    rewrite (poll_cycle_single _ _ _ (poll_item_seen _ m' sms_id Hid' Hseen)).
    set (st2 := handle_incoming str_lower (Some phone) (Some body) st1) in *.
    apply Nat.le_antisymm.
    + pose proof (sms_polling_loop_budget polls st2 sms_id) as Hb.
      unfold forward_budget in Hb.
      rewrite (bool_decide_eq_true_2 _ Hseen) in Hb. lia.
    + destruct (sms_polling_loop_trace polls st2) as (evs' & ->).
      rewrite forwards_app. lia.
Qed.

(** ** Conversational worker *)

Lemma ensure_chat_fails (b : @backend chat) st phone :
  chats st !! phone = None →
  create_result b = None ∨ prompt_result b = None →
  ensure_chat b phone st = inr (log (LogChatCreateError phone) st).
Proof.
  intros Hnone Hfail. unfold ensure_chat. rewrite Hnone.
  destruct (create_result b); [|done].
  by destruct Hfail as [?| ->].
Qed.

Lemma ensure_chat_ok (b : @backend chat) st phone c st' :
  ensure_chat b phone st = inl (c, st') →
  histories st' = histories st ∧ send_queue st' = send_queue st
  ∧ gemini_workers st' = gemini_workers st
  ∧ processed_sms st' = processed_sms st ∧ trace st' = trace st.
Proof.
  unfold ensure_chat. destruct (chats st !! phone).
  - by intros [= _ <-].
  - destruct (create_result b); [|done]. destruct (prompt_result b); [|done].
    by intros [= _ <-].
Qed.

(** C8.  When the backend call of the job at the head of the worker queue
    fails, the worker's turn ends normally: no history changes, the history
    file is not written (only log lines are added), nothing is put on the
    send queue, and the job is gone from the worker queue, whose next job is
    the one that the following turn takes. *)
Theorem gemini_worker_backend_failure (b : @backend chat) now st phone text rest :
  gemini_workers st = (phone, text) :: rest →
  backend_fails b phone st →
  ∃ st' logs,
    gemini_worker_step b now st = Some st'
    ∧ histories st' = histories st
    ∧ send_queue st' = send_queue st
    ∧ processed_sms st' = processed_sms st
    ∧ trace st' = trace st ++ logs ∧ Forall is_log logs
    ∧ gemini_workers st' = rest
    ∧ ∀ b' now',
        gemini_worker_step b' now' st'
        = match rest with
          | [] => Some st'
          | (phone', text') :: rest' =>
              gemini_job b' now' phone' text' (set_gemini_workers rest' st')
          end.
Proof.
  intros Hq Hfail. unfold gemini_worker_step at 1. rewrite Hq.
  set (st0 := set_gemini_workers rest st).
  assert (Hstep : ∀ st', gemini_workers st' = rest →
            ∀ b' now', gemini_worker_step b' now' st'
            = match rest with
              | [] => Some st'
              | (phone', text') :: rest' =>
                  gemini_job b' now' phone' text' (set_gemini_workers rest' st')
              end).
  { intros st' Hq' b' now'. unfold gemini_worker_step. by rewrite Hq'. }
  unfold gemini_job.
  destruct (ensure_chat b phone st0) as [[c st1]|st1] eqn:Hens.
  - pose proof (ensure_chat_ok _ _ _ _ _ Hens) as (Hh & Hs & Hg & Hp & Ht).
    assert (Hsend : send_result b = None).
    { destruct Hfail as [[Hnone Hf]|Hf]; [|done].
      by rewrite (ensure_chat_fails b st0 phone Hnone Hf) in Hens. }
    rewrite Hsend.
    exists (log (LogGeminiError phone) st1), [Log (LogGeminiError phone)].
    unfold log, emit.
    cbn [histories chats processed_sms send_queue gemini_workers trace].
    rewrite Hh, Hs, Hg, Hp, Ht.
    repeat split; try done; try (by repeat constructor).
    all: apply Hstep; cbn [gemini_workers]; by rewrite ?Hg.
  - assert (Hst1 : st1 = log (LogChatCreateError phone) st0).
    { unfold ensure_chat in Hens. destruct (chats st0 !! phone); [done|].
      destruct (create_result b); [|by injection Hens].
      destruct (prompt_result b); [done|by injection Hens]. }
    subst st1.
    exists (log (LogGeminiError phone) (log (LogChatCreateError phone) st0)),
      [Log (LogChatCreateError phone); Log (LogGeminiError phone)].
    unfold log, emit, st0, set_gemini_workers.
    cbn [histories chats processed_sms send_queue gemini_workers trace].
    rewrite <- app_assoc.
    repeat split; try done; try (by repeat constructor).
    all: by apply Hstep.
Qed.

(** ** History endpoint *)

(** C10.  A limit of 0 is no limit: the whole history is returned, as it is
    without a limit.  For every limit the count is the length of the stored
    history, also when the list returned is cut: a positive limit returns
    the most recent entries, as many as the limit allows, and a negative one
    drops that many of the oldest.  A recipient without a record has the
    empty history. *)
Theorem get_history_limit st phone_number :
  let all := default [] (histories st !! phone_number) in
  messages (get_history phone_number (Some 0) st) = all
  ∧ messages (get_history phone_number None st) = all
  ∧ (∀ limit, total_count (get_history phone_number limit st) = length all)
  ∧ (∀ l, 0 < l →
       messages (get_history phone_number (Some l) st)
       = drop (length all - Z.to_nat l) all)
  ∧ (∀ l, l < 0 →
       messages (get_history phone_number (Some l) st)
       = drop (Z.to_nat (- l)) all).
Proof.
  unfold get_history. destruct (histories st !! phone_number) as [all|];
    cbn [default from_option id].
  - split; [done|]. split; [done|]. split; [by intros [l|]|]. split.
    + intros l Hl. cbn [messages].
      destruct (Z.eqb_spec l 0) as [->|_]; [lia|]. cbn [negb].
      unfold slice_from. destruct (Z.ltb_spec (- l) 0); [|lia].
      f_equal. lia.
    + intros l Hl. cbn [messages].
      destruct (Z.eqb_spec l 0) as [->|_]; [lia|]. cbn [negb].
      unfold slice_from. destruct (Z.ltb_spec (- l) 0); [lia|].
      destruct (Z.le_gt_cases (- l) (Z.of_nat (length all))).
      * f_equal. lia.
      * rewrite !drop_ge; [done|lia|lia].
  - repeat split; try done. all: intros l _; by rewrite drop_nil.
Qed.

End PipelineProperties.

(** ** The theorems at sample inputs *)

Lemma handle_incoming_commands_witness :
  histories (handle_incoming lower_ascii (Some sample_phone)
               (Some (Py.lit " Chat ")) empty_state)
  = <[sample_phone := []]> (histories empty_state)
  ∧ histories (handle_incoming lower_ascii (Some sample_phone)
                 (Some (Py.lit "CLEAR")) busy_state)
    = delete sample_phone (histories busy_state).
Proof.
  split.
  - pose proof (handle_incoming_commands lower_ascii empty_state sample_phone
                  (Py.lit " Chat ")) as H.
    cbv zeta in H. destruct H as [Hchat _].
    destruct (Hchat eq_refl) as [Hnew _]. apply Hnew. reflexivity.
  - pose proof (handle_incoming_commands lower_ascii busy_state sample_phone
                  (Py.lit "CLEAR")) as H.
    cbv zeta in H. destruct H as [_ Hclear].
    destruct (Hclear eq_refl) as [Hdel _]. exact Hdel.
Defined.

Lemma handle_incoming_unregistered_ignored_witness :
  histories (handle_incoming lower_ascii (Some sample_phone)
               (Some (Py.lit "Hello there")) empty_state)
  = histories empty_state
  ∧ send_queue (handle_incoming lower_ascii (Some sample_phone)
                  (Some (Py.lit "Hello there")) empty_state)
    = send_queue empty_state.
Proof.
  pose proof (handle_incoming_unregistered_ignored lower_ascii empty_state
                sample_phone (Py.lit "Hello there")) as H.
  cbv zeta in H.
  destruct H as (Hh & _ & _ & Hs & _).
  - vm_compute. discriminate.
  - vm_compute. discriminate.
  - reflexivity.
  - split; [exact Hh|exact Hs].
Defined.

Lemma poll_forwards_once_witness :
  forwards (Py.lit "17")
    (trace (final (poll_items lower_ascii [sample_sms; sample_sms] empty_state)))
  = 1%nat.
Proof.
  pose proof (poll_forwards_once lower_ascii empty_state sample_sms sample_sms
                (Py.lit "17") sample_phone
                eq_refl eq_refl eq_refl eq_refl (not_elem_of_empty _) eq_refl) as H.
  cbv zeta in H. destruct H as (_ & _ & H & _). exact H.
Defined.

Lemma gemini_worker_backend_failure_witness :
  ∃ st' logs,
    gemini_worker_step failing_backend 1000 busy_state = Some st'
    ∧ histories st' = histories busy_state
    ∧ send_queue st' = send_queue busy_state
    ∧ processed_sms st' = processed_sms busy_state
    ∧ trace st' = trace busy_state ++ logs ∧ Forall is_log logs
    ∧ gemini_workers st' = [].
Proof.
  destruct (gemini_worker_backend_failure failing_backend 1000 busy_state
              sample_phone (Py.lit "hi") [] eq_refl)
    as (st' & logs & H1 & H2 & H3 & H4 & H5 & H6 & H7 & _).
  - right. reflexivity.
  - exists st', logs. repeat split; assumption.
Defined.

Lemma get_history_limit_witness :
  messages (get_history sample_phone (Some 0) busy_state) = sample_turns
  ∧ messages (get_history sample_phone (Some 2) busy_state)
    = drop 1 sample_turns
  ∧ total_count (get_history sample_phone (Some 2) busy_state) = 3%nat.
Proof.
  pose proof (get_history_limit busy_state sample_phone) as H.
  cbv zeta in H. destruct H as (H0 & _ & Hcount & Hpos & _).
  split; [exact H0|]. split; [|exact (Hcount (Some 2))].
  apply (Hpos 2). lia.
Defined.

(** * Further properties of the segmenter *)

(** Whatever the text, whether it is sent in one part or in several, every
    segment is short enough for a single message of its own encoding: at most
    160 characters when all are in the GSM 7-bit set, at most 70 otherwise. *)
Theorem segments_fit_one_message text segs :
  chunk_text_smart text = Some segs →
  Forall (λ s, (length s ≤ get_chunk_limit (Some s) false)%nat) segs.
Proof. apply chunk_text_smart_fits_one_message. Qed.

Lemma segments_fit_one_message_witness :
  Forall (λ s, (length s ≤ get_chunk_limit (Some s) false)%nat)
         [[9786]; replicate 100 97].
Proof.
  apply (segments_fit_one_message (Some smiley_then_word)).
  vm_compute. reflexivity.
Defined.

(** ** No empty segment *)

Lemma pack_words_nonempty words chunks cur chunks' cur' :
  Forall (λ s, s ≠ []) chunks →
  pack_words words chunks cur = Some (chunks', cur') →
  Forall (λ s, s ≠ []) chunks'.
Proof.
  revert chunks cur. induction words as [|word words IH]; intros chunks cur Hc.
  - by intros [= <- <-].
  - cbn [pack_words].
    set (test_chunk := if Py.truthy cur then cur ++ Py.SP :: word else word).
    assert (Hc1 : Forall (λ s, s ≠ [])
                    (if Py.truthy cur then chunks ++ [cur] else chunks)).
    { destruct cur as [|a cur]; [done|]. cbn [Py.truthy].
      apply Forall_app. split; [done|]. by constructor. }
    destruct (length test_chunk <=? get_chunk_limit (Some test_chunk) true)%nat.
    { by apply IH. }
    destruct (get_chunk_limit (Some word) true <? length word)%nat.
    + destruct (split_long_word_spec (length word) word)
        as (parts & -> & _ & Hp); [done|].
      apply IH. apply Forall_app. split; [done|].
      eapply Forall_impl; [exact Hp|]. by intros p [? _].
    + by apply IH.
Qed.

Lemma chunk_text_smart_nonempty text :
  ∃ segs, chunk_text_smart text = Some segs ∧ Forall (λ s, s ≠ []) segs.
Proof.
  destruct (chunk_text_smart_total text) as (segs & Hrun).
  exists segs. split; [done|]. revert Hrun.
  destruct text as [t|]; [|by intros [= <-]].
  unfold chunk_text_smart.
  destruct (normalize t) as [|c text] eqn:E; cbn [Py.truthy negb].
  { by intros [= <-]. }
  destruct (length (c :: text) <=? get_chunk_limit (Some (c :: text)) false)%nat.
  { intros [= <-]. by constructor. }
  destruct (pack_words (Py.split_sp (c :: text)) [] []) as [[chunks cur]|] eqn:Hp;
    [|done].
  intros [= <-].
  pose proof (pack_words_nonempty _ _ _ _ _ (Forall_nil_2 _) Hp) as Hne.
  destruct cur as [|a cur]; [done|]. cbn [Py.truthy].
  apply Forall_app. split; [done|]. by constructor.
Qed.

(** The segmenter returns on every input, and no segment it returns is
    empty. *)
Theorem chunk_text_smart_no_empty_segment text :
  ∃ segs, chunk_text_smart text = Some segs ∧ Forall (λ s, s ≠ []) segs.
Proof. apply chunk_text_smart_nonempty. Qed.

(** ** What the segments keep of the text *)

Lemma nonws_app t1 t2 : nonws (t1 ++ t2) = nonws t1 ++ nonws t2.
Proof. apply filter_app. Qed.

Lemma nonws_cons_space c t : Py.isspace c = true → nonws (c :: t) = nonws t.
Proof.
  intros Hc. unfold nonws. rewrite filter_cons_False; [done|]. by rewrite Hc.
Qed.

Lemma nonws_cons_nonspace c t :
  Py.isspace c = false → nonws (c :: t) = c :: nonws t.
Proof. intros Hc. unfold nonws. by rewrite filter_cons_True. Qed.

Lemma nonws_sub_ws b t : nonws (Py.sub_ws b t) = nonws t.
Proof.
  revert b. induction t as [|c t IH]; intros b; [done|].
  cbn [Py.sub_ws]. destruct (Py.isspace c) eqn:Hc.
  - rewrite (nonws_cons_space c) by done. destruct b; [done|].
    by rewrite (nonws_cons_space Py.SP).
  - by rewrite !(nonws_cons_nonspace c), IH.
Qed.

Lemma nonws_lstrip t : nonws (Py.lstrip t) = nonws t.
Proof.
  induction t as [|c t IH]; [done|].
  cbn [Py.lstrip]. destruct (Py.isspace c) eqn:Hc; [|done].
  by rewrite (nonws_cons_space c).
Qed.

Lemma nonws_rstrip_rec t : nonws (Py.rstrip_rec t) = nonws t.
Proof.
  induction t as [|c t IH]; [done|].
  cbn [Py.rstrip_rec]. destruct (Py.rstrip_rec t) as [|a r] eqn:Er.
  - destruct (Py.isspace c) eqn:Hc.
    + by rewrite (nonws_cons_space c).
    + by rewrite !(nonws_cons_nonspace c), <- IH.
  - destruct (Py.isspace c) eqn:Hc.
    + by rewrite !(nonws_cons_space c), IH.
    + by rewrite !(nonws_cons_nonspace c), IH.
Qed.

(** Normalisation keeps the characters that are not whitespace. *)
Lemma nonws_normalize t : nonws (normalize t) = nonws t.
Proof.
  unfold normalize, Py.strip.
  by rewrite rstrip_rec_correct, nonws_rstrip_rec, nonws_lstrip, nonws_sub_ws.
Qed.

Lemma nonws_split_sp t : nonws (concat (Py.split_sp t)) = nonws t.
Proof.
  induction t as [|c t IH]; [done|]. cbn [Py.split_sp].
  destruct (Z.eqb_spec c Py.SP) as [->|Hc].
  - cbn [concat app]. by rewrite (nonws_cons_space Py.SP).
  - pose proof (split_sp_nonnil t).
    destruct (Py.split_sp t) as [|w ws]; [done|].
    cbn [concat] in *. change ((c :: w) ++ concat ws) with (c :: (w ++ concat ws)).
    destruct (Py.isspace c) eqn:Hs.
    + by rewrite !(nonws_cons_space c), IH.
    + by rewrite !(nonws_cons_nonspace c), IH.
Qed.

Lemma nonws_finish chunks cur :
  nonws (concat (finish chunks cur)) = nonws (concat chunks) ++ nonws cur.
Proof.
  unfold finish. destruct cur as [|a cur]; cbn [Py.truthy].
  - by rewrite app_nil_r.
  - rewrite concat_app, nonws_app. cbn [concat]. by rewrite app_nil_r.
Qed.

Lemma pack_words_nonws words chunks cur chunks' cur' :
  pack_words words chunks cur = Some (chunks', cur') →
  nonws (concat (finish chunks' cur'))
  = nonws (concat (finish chunks cur)) ++ nonws (concat words).
Proof.
  revert chunks cur. induction words as [|word words IH]; intros chunks cur.
  - intros [= <- <-]. by rewrite app_nil_r.
  - cbn [pack_words].
    set (test_chunk := if Py.truthy cur then cur ++ Py.SP :: word else word).
    assert (Htest : nonws test_chunk = nonws cur ++ nonws word).
    { subst test_chunk. destruct cur as [|a cur]; [done|]. cbn [Py.truthy].
      by rewrite nonws_app, (nonws_cons_space Py.SP). }
    cbn [concat]. rewrite (nonws_app word).
    destruct (length test_chunk <=? get_chunk_limit (Some test_chunk) true)%nat.
    { intros H%IH. rewrite H, !nonws_finish, Htest. by rewrite !app_assoc. }
    fold (finish chunks cur).
    destruct (get_chunk_limit (Some word) true <? length word)%nat.
    + destruct (split_long_word_spec (length word) word)
        as (parts & -> & Hcat & _); [done|].
      intros H%IH. rewrite H. rewrite (nonws_finish (finish chunks cur ++ parts) []).
      rewrite concat_app, nonws_app, Hcat. by rewrite app_nil_r, !app_assoc.
    + intros H%IH. rewrite H, (nonws_finish (finish chunks cur) word).
      by rewrite !app_assoc.
Qed.

Lemma nonws_segments t segs :
  chunk_text_smart (Some t) = Some segs →
  nonws (concat segs) = nonws t.
Proof.
  rewrite <- (nonws_normalize t). unfold chunk_text_smart.
  destruct (normalize t) as [|c text] eqn:E; cbn [Py.truthy negb].
  { by intros [= <-]. }
  destruct (length (c :: text) <=? get_chunk_limit (Some (c :: text)) false)%nat.
  { intros [= <-]. cbn [concat]. by rewrite app_nil_r. }
  destruct (pack_words (Py.split_sp (c :: text)) [] []) as [[chunks cur]|] eqn:Hp;
    [|done].
  intros [= <-]. fold (finish chunks cur).
  rewrite (pack_words_nonws _ _ _ _ _ Hp). cbn [finish Py.truthy concat app].
  apply nonws_split_sp.
Qed.

(** Nothing but whitespace is lost or added, and nothing is reordered: the
    characters of the segments that are not spaces are the characters of the
    text that are not whitespace, in the same order. *)
Theorem chunk_text_smart_keeps_characters t segs :
  chunk_text_smart (Some t) = Some segs →
  nonws (concat segs) = nonws t.
Proof. apply nonws_segments. Qed.

Lemma chunk_text_smart_keeps_characters_witness :
  nonws (concat [[9786]; replicate 100 97]) = nonws smiley_then_word.
Proof.
  apply (chunk_text_smart_keeps_characters smiley_then_word).
  vm_compute. reflexivity.
Defined.

(** ** Joining the segments *)

Lemma lead_sp_app l1 l2 : lead_sp (l1 ++ l2) = lead_sp l1 ++ lead_sp l2.
Proof.
  induction l1 as [|s l1 IH]; [done|].
  cbn [app lead_sp]. by rewrite IH, app_assoc.
Qed.

Lemma lead_sp_join l : l ≠ [] → lead_sp l = Py.SP :: join_sp l.
Proof.
  induction l as [|s l IH]; [done|]. intros _.
  destruct l as [|s' l].
  - cbn [lead_sp join_sp]. by rewrite app_nil_r.
  - cbn [join_sp]. change (lead_sp (s :: s' :: l)) with (Py.SP :: s ++ lead_sp (s' :: l)).
    by rewrite IH.
Qed.

Lemma lead_sp_split_sp t : lead_sp (Py.split_sp t) = Py.SP :: t.
Proof.
  induction t as [|c t IH]; [done|]. cbn [Py.split_sp].
  destruct (Z.eqb_spec c Py.SP) as [->|Hc].
  - cbn [lead_sp app]. by rewrite IH.
  - destruct (Py.split_sp t) as [|w ws]; [done|].
    cbn [lead_sp] in *. injection IH as IH. cbn [app]. by rewrite IH.
Qed.

(** Splitting on spaces and joining with spaces gives the text back. *)
Lemma join_sp_split_sp t : join_sp (Py.split_sp t) = t.
Proof.
  pose proof (lead_sp_split_sp t) as H.
  rewrite lead_sp_join in H by apply split_sp_nonnil. by injection H.
Qed.

Lemma lead_sp_finish chunks cur :
  lead_sp (finish chunks cur)
  = lead_sp chunks ++ (if Py.truthy cur then Py.SP :: cur else []).
Proof.
  unfold finish. destruct cur as [|a cur]; cbn [Py.truthy].
  - by rewrite app_nil_r.
  - rewrite lead_sp_app. cbn [lead_sp]. by rewrite app_nil_r.
Qed.

Lemma pack_words_lead_sp words chunks cur chunks' cur' :
  Forall (λ w, w ≠ []) words →
  Forall fits words →
  pack_words words chunks cur = Some (chunks', cur') →
  lead_sp (finish chunks' cur') = lead_sp (finish chunks cur) ++ lead_sp words.
Proof.
  intros Hne. revert chunks cur.
  induction Hne as [|word words Hw Hne IH]; intros chunks cur Hfits.
  - intros [= <- <-]. by rewrite app_nil_r.
  - apply Forall_cons in Hfits as [Hword Hfits]. cbn [pack_words].
    set (test_chunk := if Py.truthy cur then cur ++ Py.SP :: word else word).
    assert (Hstep : ∀ cur0,
              lead_sp (finish (finish chunks cur0) word)
              = lead_sp (finish chunks cur0) ++ Py.SP :: word).
    { intros cur0. rewrite (lead_sp_finish (finish chunks cur0) word).
      by destruct word. }
    assert (Htest : lead_sp (finish chunks test_chunk)
                    = lead_sp (finish chunks cur) ++ Py.SP :: word).
    { subst test_chunk. destruct cur as [|a cur].
      - apply (Hstep []).
      - cbn [Py.truthy]. rewrite !lead_sp_finish. cbn [Py.truthy app].
        by rewrite <- !app_assoc. }
    cbn [lead_sp].
    destruct (length test_chunk <=? get_chunk_limit (Some test_chunk) true)%nat.
    { intros H%IH; [|done]. rewrite H, Htest. by rewrite <- app_assoc. }
    fold (finish chunks cur).
    destruct (Nat.ltb_spec (get_chunk_limit (Some word) true) (length word))
      as [Hlong|_].
    { unfold fits in Hword. lia. }
    intros H%IH; [|done]. rewrite H, Hstep. by rewrite <- app_assoc.
Qed.

(** When no word of the normalised text is longer than the multipart limit
    of its own encoding, so that none is cut, the segments joined by single
    spaces are the normalised text. *)
Theorem chunk_text_smart_join t segs :
  Forall fits (Py.split_sp (normalize t)) →
  chunk_text_smart (Some t) = Some segs →
  join_sp segs = normalize t.
Proof.
  intros Hfits. unfold chunk_text_smart.
  destruct (decide (normalize t = [])) as [E|Hne].
  { rewrite E. by intros [= <-]. }
  pose proof (split_sp_normalize t Hne) as Hwords.
  destruct (normalize t) as [|c text] eqn:E; [done|]. cbn [Py.truthy negb].
  destruct (length (c :: text) <=? get_chunk_limit (Some (c :: text)) false)%nat.
  { by intros [= <-]. }
  destruct (pack_words (Py.split_sp (c :: text)) [] []) as [[chunks cur]|] eqn:Hp;
    [|done].
  intros [= <-]. fold (finish chunks cur).
  pose proof (pack_words_lead_sp _ _ _ _ _ Hwords Hfits Hp) as H.
  cbn [finish Py.truthy lead_sp app] in H. rewrite lead_sp_split_sp in H.
  destruct (finish chunks cur) as [|s l] eqn:Ef; [done|].
  rewrite lead_sp_join in H by done. by injection H.
Qed.

Lemma chunk_text_smart_join_witness :
  join_sp [replicate 77 97; replicate 77 97; replicate 77 97;
           replicate 77 97; replicate 77 97]
  = normalize five_words.
Proof.
  apply (chunk_text_smart_join five_words).
  - vm_compute. repeat (apply Forall_cons_2; [lia|]). apply Forall_nil_2.
  - vm_compute. reflexivity.
Defined.

(** ** Blank and long texts *)

Lemma lstrip_blank t : Forall (λ c, Py.isspace c = true) t → Py.lstrip t = [].
Proof. induction 1 as [|c t Hc _ IH]; [done|]. cbn [Py.lstrip]. by rewrite Hc. Qed.

Lemma nonws_nil_blank t : nonws t = [] → Forall (λ c, Py.isspace c = true) t.
Proof.
  induction t as [|c t IH]; [done|].
  destruct (Py.isspace c) eqn:Hc.
  - rewrite (nonws_cons_space c) by done. intros H. constructor; auto.
  - by rewrite (nonws_cons_nonspace c).
Qed.

Lemma normalize_nil_iff t :
  normalize t = [] ↔ Forall (λ c, Py.isspace c = true) t.
Proof.
  split.
  - intros E. apply nonws_nil_blank. by rewrite <- nonws_normalize, E.
  - intros Hb. unfold normalize, Py.strip.
    rewrite lstrip_blank; [done|]. by apply sub_ws_Forall.
Qed.

(** The segmenter returns no segment exactly for the texts made of
    whitespace only, the empty text among them. *)
Theorem chunk_text_smart_nil_iff t :
  chunk_text_smart (Some t) = Some [] ↔ Forall (λ c, Py.isspace c = true) t.
Proof.
  rewrite <- normalize_nil_iff. split.
  - intros Hrun. destruct (decide (normalize t = [])) as [E|Hne]; [done|].
    exfalso.
    destruct (Nat.le_gt_cases (length (normalize t))
                (get_chunk_limit (Some (normalize t)) false)) as [Hle|Hgt].
    + by rewrite (chunk_text_smart_single t Hne Hle) in Hrun.
    + destruct (chunk_text_smart_multipart t Hgt) as (segs & Hrun' & _ & Hw).
      rewrite Hrun in Hrun'. injection Hrun' as <-. simpl in Hw. lia.
  - intros E. unfold chunk_text_smart. by rewrite E.
Qed.

Lemma chunk_text_smart_nil_iff_witness :
  chunk_text_smart (Some blank_text) = Some [].
Proof.
  apply (chunk_text_smart_nil_iff blank_text).
  repeat (apply Forall_cons_2; [reflexivity|]). apply Forall_nil_2.
Defined.

Lemma collapsed_only_sp b s :
  collapsed b s → Forall (λ c, Py.isspace c = true → c = Py.SP) s.
Proof.
  revert b. induction s as [|c s IH]; intros b; [done|].
  cbn [collapsed]. destruct (Py.isspace c) eqn:Hc.
  - intros (-> & _ & H). constructor; [done|]. by eapply IH.
  - intros H. constructor; [intros ?; congruence|]. by eapply IH.
Qed.

(** The space is the only whitespace of a normalised text. *)
Lemma normalize_only_sp t :
  Forall (λ c, Py.isspace c = true → c = Py.SP) (normalize t).
Proof.
  unfold normalize, Py.strip. rewrite rstrip_rec_correct.
  apply rstrip_rec_Forall.
  eapply collapsed_only_sp, lstrip_collapsed, sub_ws_collapsed.
Qed.

Lemma elem_of_nonws c t : c ∈ nonws t ↔ Py.isspace c = false ∧ c ∈ t.
Proof. unfold nonws. apply (list_elem_of_filter (λ c, Py.isspace c = false)). Qed.

(** A text too long for one message is sent as at least two segments. *)
Theorem chunk_text_smart_at_least_two t segs :
  (get_chunk_limit (Some (normalize t)) false < length (normalize t))%nat →
  chunk_text_smart (Some t) = Some segs →
  (2 ≤ length segs)%nat.
Proof.
  intros Hlong Hrun.
  destruct (chunk_text_smart_multipart t Hlong) as (segs' & Hrun' & Hfits & Hw).
  rewrite Hrun in Hrun'. injection Hrun' as <-.
  destruct segs as [|s [|s' segs]]; [simpl in Hw; lia| |simpl; lia].
  exfalso. apply Forall_cons in Hfits as [Hs _]. simpl in Hw.
  pose proof (nonws_segments t [s] Hrun) as Hkeep.
  rewrite <- (nonws_normalize t) in Hkeep. cbn [concat] in Hkeep.
  rewrite app_nil_r in Hkeep.
  unfold fits in Hs. rewrite get_chunk_limit_table in Hs, Hlong.
  destruct (is_gsm_7bit (Some (normalize t))) eqn:Ht;
    destruct (is_gsm_7bit (Some s)) eqn:Hgs; try lia.
  pose proof (proj1 (is_gsm_7bit_iff s) Hgs) as Hin.
  assert (Hall : ∀ c, c ∈ normalize t → c ∈ GSM_7BIT_SET).
  { intros c Hc. destruct (Py.isspace c) eqn:Hsp.
    - pose proof (normalize_only_sp t) as Honly.
      rewrite Forall_forall in Honly. rewrite (Honly c Hc Hsp). by vm_compute.
    - apply Hin. apply (elem_of_nonws c s). rewrite Hkeep.
      by apply elem_of_nonws. }
  pose proof (proj2 (is_gsm_7bit_iff (normalize t)) Hall). congruence.
Qed.

Lemma chunk_text_smart_at_least_two_witness :
  (2 ≤ length [[9786%Z]; replicate 100 97%Z])%nat.
Proof.
  apply (chunk_text_smart_at_least_two smiley_then_word).
  - vm_compute. lia.
  - vm_compute. reflexivity.
Defined.

(** ** The shape of a segment *)

Lemma collapsed_rstrip_rec b s : collapsed b s → collapsed b (Py.rstrip_rec s).
Proof.
  revert b. induction s as [|c s IH]; intros b; [done|].
  cbn [collapsed Py.rstrip_rec]. destruct (Py.isspace c) eqn:Hc.
  - intros (-> & -> & H). specialize (IH true H).
    destruct (Py.rstrip_rec s) as [|a r]; [done|].
    cbn [collapsed]. by rewrite Hc.
  - intros H. specialize (IH false H).
    destruct (Py.rstrip_rec s) as [|a r]; cbn [collapsed]; by rewrite Hc.
Qed.

Lemma normalize_collapsed t : collapsed true (normalize t).
Proof.
  unfold normalize, Py.strip. rewrite rstrip_rec_correct.
  eapply collapsed_rstrip_rec, lstrip_collapsed, sub_ws_collapsed.
Qed.

Lemma sub_ws_collapsed_id b s : collapsed b s → Py.sub_ws b s = s.
Proof.
  revert b. induction s as [|c s IH]; intros b; [done|].
  cbn [collapsed Py.sub_ws]. destruct (Py.isspace c) eqn:Hc.
  - intros (-> & -> & H). by rewrite (IH true H).
  - intros H. by rewrite (IH false H).
Qed.

Lemma lstrip_collapsed_id s : collapsed true s → Py.lstrip s = s.
Proof.
  destruct s as [|c s]; [done|]. cbn [collapsed Py.lstrip].
  destruct (Py.isspace c); [|done]. by intros (_ & ? & _).
Qed.

Lemma rstrip_rec_spaced_id b s :
  collapsed b s → spaced b s → Py.rstrip_rec s = s.
Proof.
  revert b. induction s as [|c s IH]; intros b; [done|].
  cbn [collapsed spaced Py.rstrip_rec]. destruct (Py.isspace c) eqn:Hc.
  - intros (-> & -> & Hcol). rewrite Z.eqb_refl. intros [_ Hsp].
    rewrite (IH true Hcol Hsp). destruct s; [done|done].
  - rewrite (isspace_false_not_SP c Hc). intros Hcol Hsp.
    rewrite (IH false Hcol Hsp). by destruct s.
Qed.

(** A tidy string is its own normal form. *)
Lemma tidy_normalize s : tidy s → normalize s = s.
Proof.
  intros [Hcol Hsp]. unfold normalize, Py.strip.
  rewrite rstrip_rec_correct.
  rewrite (sub_ws_collapsed_id false s (collapsed_weaken false s Hcol)).
  rewrite (lstrip_collapsed_id s Hcol).
  by apply rstrip_rec_spaced_id with true.
Qed.

Lemma tidy_nonnil s : tidy s → s ≠ [].
Proof. intros [_ Hsp] ->. done. Qed.

Lemma normalize_tidy t : normalize t ≠ [] → tidy (normalize t).
Proof. intros Hne. split; [apply normalize_collapsed|by apply normalize_spaced]. Qed.

(** Normalising twice is normalising once. *)
Lemma normalize_idempotent t : normalize (normalize t) = normalize t.
Proof.
  destruct (decide (normalize t = [])) as [->|Hne]; [done|].
  by apply tidy_normalize, normalize_tidy.
Qed.

Lemma collapsed_nows b w :
  Forall (λ c, Py.isspace c = false) w → collapsed b w.
Proof.
  intros Hw. revert b. induction Hw as [|c w Hc _ IH]; intros b; [done|].
  cbn [collapsed]. by rewrite Hc.
Qed.

Lemma spaced_nows b w :
  Forall (λ c, Py.isspace c = false) w → w ≠ [] → spaced b w.
Proof.
  intros Hw. revert b. induction Hw as [|c w Hc Hw IH]; intros b; [done|].
  intros _. cbn [spaced]. rewrite (isspace_false_not_SP c Hc).
  destruct w; [done|]. by apply IH.
Qed.

Lemma tidy_word w : Forall (λ c, Py.isspace c = false) w → w ≠ [] → tidy w.
Proof. intros Hw Hne. split; [by apply collapsed_nows|by apply spaced_nows]. Qed.

Lemma tidy_app_word b s w :
  collapsed b s → spaced b s →
  Forall (λ c, Py.isspace c = false) w → w ≠ [] →
  collapsed b (s ++ Py.SP :: w) ∧ spaced b (s ++ Py.SP :: w).
Proof.
  intros Hcol Hsp Hw Hne. revert b Hcol Hsp.
  induction s as [|c s IH]; intros b.
  - cbn [collapsed spaced app]. intros _ ->. rewrite isspace_SP, Z.eqb_refl.
    repeat split; [by apply collapsed_nows|by apply spaced_nows].
  - cbn [collapsed spaced app]. destruct (Py.isspace c) eqn:Hc.
    + intros (-> & -> & Hcol). rewrite Z.eqb_refl. intros [_ Hsp].
      destruct (IH true Hcol Hsp). by repeat split.
    + rewrite (isspace_false_not_SP c Hc). intros Hcol Hsp.
      by apply IH.
Qed.

Lemma split_sp_nows t :
  Forall (λ c, Py.isspace c = true → c = Py.SP) t →
  Forall (Forall (λ c, Py.isspace c = false)) (Py.split_sp t).
Proof.
  induction 1 as [|c t Hc _ IH]; [by repeat constructor|].
  cbn [Py.split_sp]. destruct (Z.eqb_spec c Py.SP) as [->|Hne].
  - by constructor.
  - pose proof (split_sp_nonnil t).
    destruct (Py.split_sp t) as [|w ws]; [done|].
    apply Forall_cons in IH as [Hw Hws]. constructor; [|done].
    constructor; [|done]. destruct (Py.isspace c); [by destruct Hne; auto|done].
Qed.

Lemma pack_words_tidy words chunks cur chunks' cur' :
  Forall (λ w, w ≠ []) words →
  Forall (Forall (λ c, Py.isspace c = false)) words →
  Forall tidy chunks → (cur = [] ∨ tidy cur) →
  pack_words words chunks cur = Some (chunks', cur') →
  Forall tidy chunks' ∧ (cur' = [] ∨ tidy cur').
Proof.
  intros Hne. revert chunks cur.
  induction Hne as [|word words Hw Hne IH]; intros chunks cur Hnows Hc Hcur.
  - by intros [= <- <-].
  - apply Forall_cons in Hnows as [Hword Hnows]. cbn [pack_words].
    set (test_chunk := if Py.truthy cur then cur ++ Py.SP :: word else word).
    assert (Htest : tidy test_chunk).
    { subst test_chunk. destruct cur as [|a cur]; [by apply tidy_word|].
      cbn [Py.truthy]. destruct Hcur as [|[Hcol Hsp]]; [done|].
      by apply tidy_app_word. }
    assert (Hc1 : Forall tidy (if Py.truthy cur then chunks ++ [cur] else chunks)).
    { destruct cur as [|a cur]; [done|]. cbn [Py.truthy].
      destruct Hcur as [|Hcur]; [done|].
      apply Forall_app. split; [done|]. by constructor. }
    destruct (length test_chunk <=? get_chunk_limit (Some test_chunk) true)%nat.
    { apply IH; auto. }
    destruct (get_chunk_limit (Some word) true <? length word)%nat.
    + destruct (split_long_word_spec (length word) word)
        as (parts & -> & Hcat & Hp); [done|].
      apply IH; auto. apply Forall_app. split; [done|].
      rewrite <- Hcat in Hword. apply Forall_concat in Hword.
      rewrite Forall_forall in Hp, Hword. apply Forall_forall.
      intros p Hin. apply tidy_word; [by apply Hword|by apply Hp].
    + apply IH; auto. right. by apply tidy_word.
Qed.

Lemma segments_tidy t segs :
  chunk_text_smart (Some t) = Some segs → Forall tidy segs.
Proof.
  unfold chunk_text_smart.
  destruct (decide (normalize t = [])) as [E|Hne].
  { rewrite E. by intros [= <-]. }
  pose proof (normalize_tidy t Hne) as Ht.
  pose proof (split_sp_normalize t Hne) as Hwords.
  pose proof (split_sp_nows _ (normalize_only_sp t)) as Hnows.
  destruct (normalize t) as [|c text] eqn:E; [done|]. cbn [Py.truthy negb].
  destruct (length (c :: text) <=? get_chunk_limit (Some (c :: text)) false)%nat.
  { intros [= <-]. by constructor. }
  destruct (pack_words (Py.split_sp (c :: text)) [] []) as [[chunks cur]|] eqn:Hp;
    [|done].
  intros [= <-].
  destruct (pack_words_tidy _ _ _ _ _ Hwords Hnows (Forall_nil_2 _)
              (or_introl eq_refl) Hp) as [Hc Hcur].
  destruct cur as [|a cur]; [done|]. cbn [Py.truthy].
  destruct Hcur as [|Hcur]; [done|].
  apply Forall_app. split; [done|]. by constructor.
Qed.

(** In every segment the only whitespace is the single space between two
    words: no tab or line break is left, no space doubled, none first or
    last. *)
Theorem chunk_text_smart_tidy t segs :
  chunk_text_smart (Some t) = Some segs → Forall tidy segs.
Proof. apply segments_tidy. Qed.

Lemma chunk_text_smart_tidy_witness :
  Forall tidy [Py.lit "hello world"].
Proof.
  apply (chunk_text_smart_tidy (Py.lit "  hello   world ")).
  vm_compute. reflexivity.
Defined.

(** Segmenting a segment again gives that segment alone. *)
Theorem chunk_text_smart_again t segs :
  chunk_text_smart (Some t) = Some segs →
  Forall (λ s, chunk_text_smart (Some s) = Some [s]) segs.
Proof.
  intros Hrun.
  pose proof (segments_tidy t segs Hrun) as Htidy.
  pose proof (chunk_text_smart_fits_one_message (Some t) segs Hrun) as Hfit.
  rewrite Forall_forall in Htidy, Hfit. apply Forall_forall. intros s Hs.
  pose proof (tidy_normalize s (Htidy s Hs)) as Hn.
  rewrite <- Hn at 2. apply chunk_text_smart_single.
  - rewrite Hn. by apply tidy_nonnil, Htidy.
  - rewrite Hn. by apply Hfit.
Qed.

Lemma chunk_text_smart_again_witness :
  Forall (λ s, chunk_text_smart (Some s) = Some [s])
         [[9786]; replicate 100 97].
Proof.
  apply (chunk_text_smart_again smiley_then_word).
  vm_compute. reflexivity.
Defined.

(** * Further properties of the classifier *)

Lemma all_in_gsm_app t1 t2 :
  all_in_gsm (t1 ++ t2) = all_in_gsm t1 && all_in_gsm t2.
Proof.
  induction t1 as [|c t1 IH]; [done|]. cbn [app all_in_gsm].
  by destruct (bool_decide (c ∈ GSM_7BIT_SET)).
Qed.

(** A longer text never has a larger limit: the limit of a concatenation is
    at most the limit of either part, and the multipart limit is below the
    single-part one. *)
Theorem get_chunk_limit_antitone t1 t2 is_multipart :
  (get_chunk_limit (Some (t1 ++ t2)) is_multipart
   ≤ get_chunk_limit (Some t1) is_multipart)%nat
  ∧ (get_chunk_limit (Some (t1 ++ t2)) is_multipart
     ≤ get_chunk_limit (Some t2) is_multipart)%nat
  ∧ (get_chunk_limit (Some t1) true < get_chunk_limit (Some t1) false)%nat.
Proof.
  rewrite !get_chunk_limit_table. cbn [is_gsm_7bit]. rewrite all_in_gsm_app.
  destruct (all_in_gsm t1), (all_in_gsm t2), is_multipart; cbn [andb]; lia.
Qed.

Lemma ascii_table_checked :
  forallb (λ c, bool_decide (bool_decide (c ∈ GSM_7BIT_SET)
                             = negb (bool_decide (c ∈ ASCII_NOT_GSM))))
          (seqZ 32 95) = true.
Proof. by vm_compute. Qed.

(** Of the printable ASCII characters (U+0020 to U+007E) nine are outside
    the set the source tests against, and so make a text wide: the brackets,
    the backslash, the caret, the backquote, the braces, the bar and the
    tilde. *)
Theorem printable_ascii_gsm c :
  32 ≤ c ≤ 126 →
  (c ∈ GSM_7BIT_SET ↔ c ∉ ASCII_NOT_GSM)
  ∧ (c ∈ ASCII_NOT_GSM → ∀ t1 t2 is_multipart,
       get_chunk_limit (Some (t1 ++ c :: t2)) is_multipart
       = if is_multipart then 67%nat else 70%nat).
Proof.
  intros Hc.
  assert (Hin : c ∈ seqZ 32 95) by (apply elem_of_seqZ; lia).
  pose proof ascii_table_checked as Hall.
  rewrite forallb_forall in Hall. apply list_elem_of_In, Hall in Hin.
  apply bool_decide_eq_true in Hin.
  assert (Hiff : c ∈ GSM_7BIT_SET ↔ c ∉ ASCII_NOT_GSM).
  { destruct (decide (c ∈ ASCII_NOT_GSM)) as [Hex|Hex].
    - rewrite (bool_decide_eq_true_2 _ Hex) in Hin.
      apply bool_decide_eq_false in Hin. tauto.
    - rewrite (bool_decide_eq_false_2 _ Hex) in Hin.
      apply bool_decide_eq_true in Hin. tauto. }
  split; [done|]. intros Hex t1 t2 is_multipart.
  rewrite get_chunk_limit_table. cbn [is_gsm_7bit].
  rewrite all_in_gsm_app. cbn [all_in_gsm].
  rewrite (bool_decide_eq_false_2 (c ∈ GSM_7BIT_SET)) by tauto.
  rewrite andb_false_r. by destruct is_multipart.
Qed.

Lemma printable_ascii_gsm_witness :
  get_chunk_limit (Some (Py.lit "a[b")) false = 70%nat.
Proof.
  assert (Hr : 32 ≤ 91 ≤ 126) by lia.
  assert (Hex : 91 ∈ ASCII_NOT_GSM) by (apply list_elem_of_In; simpl; tauto).
  destruct (printable_ascii_gsm 91 Hr) as [_ H].
  exact (H Hex (Py.lit "a") (Py.lit "b") false).
Defined.

(** * Further properties of the pipeline *)

Section FacadeProperties.

Context {chat : Type}.
Variable str_lower : list Z → list Z.
Implicit Types (st : @state chat) (phone text : list Z).

(** ** Router *)

(** The router leaves every other recipient alone: neither the record nor
    the chat handle of a recipient other than the sender changes. *)
Theorem handle_incoming_other_recipients st phone text p :
  p ≠ phone →
  histories (handle_incoming str_lower (Some phone) (Some text) st) !! p
  = histories st !! p
  ∧ chats (handle_incoming str_lower (Some phone) (Some text) st) !! p
    = chats st !! p.
Proof.
  intros Hp.
  destruct (decide (str_lower (Py.strip text) = Py.lit "chat")) as [Hchat|Hchat].
  { destruct (histories st !! phone) eqn:Hh.
    - by rewrite (handle_incoming_chat_registered _ _ _ _ Hchat) by (by rewrite Hh).
    - rewrite (handle_incoming_chat_new _ _ _ _ Hchat Hh). cbn [histories chats].
      by rewrite lookup_insert_ne. }
  destruct (decide (str_lower (Py.strip text) = Py.lit "clear")) as [Hclear|Hclear].
  { destruct (handle_incoming_clear _ st phone text Hclear) as (saves & -> & _).
    cbn [histories chats]. by rewrite !lookup_delete_ne. }
  destruct (histories st !! phone) eqn:Hh.
  - by rewrite (handle_incoming_other_registered _ _ _ _ Hchat Hclear)
      by (by rewrite Hh).
  - by rewrite (handle_incoming_other_unregistered _ _ _ _ Hchat Hclear Hh).
Qed.

(** Free text from a registered recipient changes no record and no chat
    handle; it queues the interim reply and then one job for the workers
    that carries the trimmed text. *)
Theorem handle_incoming_free_text st phone text :
  str_lower (Py.strip text) ≠ Py.lit "chat" →
  str_lower (Py.strip text) ≠ Py.lit "clear" →
  is_Some (histories st !! phone) →
  let st' := handle_incoming str_lower (Some phone) (Some text) st in
  histories st' = histories st
  ∧ chats st' = chats st
  ∧ processed_sms st' = processed_sms st
  ∧ send_queue st' = send_queue st ++ [(phone, Py.lit "Thinking...")]
  ∧ gemini_workers st' = gemini_workers st ++ [(phone, Py.strip text)]
  ∧ trace st' = trace st ++ [Log (LogIn phone (Py.strip text))].
Proof.
  intros Hchat Hclear Hreg. cbn zeta.
  by rewrite (handle_incoming_other_registered _ _ _ _ Hchat Hclear Hreg).
Qed.

(** ** Sender *)

Lemma enqueue_chunks_spec phone chunks st :
  enqueue_chunks phone chunks st
  = mkState (histories st) (chats st) (processed_sms st)
      (send_queue st ++ map (pair phone) chunks) (gemini_workers st)
      (new_message_queue st) (trace st).
Proof.
  revert st. induction chunks as [|chunk chunks IH]; intros st.
  - cbn [enqueue_chunks map]. rewrite app_nil_r. by destruct st.
  - cbn [enqueue_chunks map]. rewrite IH. unfold send_sms_raw.
    cbn [histories chats processed_sms send_queue gemini_workers
         new_message_queue trace].
    by rewrite <- app_assoc.
Qed.

(** A failed send, of whatever kind, is not retried and leaves no mark: the
    job is gone from the queue, the jobs behind it keep their order, no turn
    is recorded and nothing is written. *)
Theorem sender_step_failure o now st :
  send_fails o →
  let st' := (sender_step o now st).2 in
  histories st' = histories st
  ∧ chats st' = chats st
  ∧ processed_sms st' = processed_sms st
  ∧ gemini_workers st' = gemini_workers st
  ∧ trace st' = trace st
  ∧ send_queue st' = tail (send_queue st).
Proof.
  intros Hfail. cbn zeta. unfold sender_step.
  destruct (send_queue st) as [|[phone text] rest] eqn:Hq; cbn [snd].
  - by rewrite Hq.
  - by destruct o.
Qed.

Lemma sender_step_ok now st phone text rest :
  send_queue st = (phone, text) :: rest →
  let st' := (sender_step SendOk now st).2 in
  histories st' !! phone
  = Some (default [] (histories st !! phone) ++ [system_turn text now])
  ∧ (∀ p, p ≠ phone → histories st' !! p = histories st !! p)
  ∧ send_queue st' = rest
  ∧ chats st' = chats st
  ∧ trace st' = trace st ++ [SaveHistories (histories st')].
Proof.
  intros Hq. unfold sender_step. rewrite Hq.
  cbn [send_sms_termux snd save_histories set_histories set_send_queue emit
       histories chats processed_sms send_queue gemini_workers
       new_message_queue trace].
  rewrite lookup_insert_eq. repeat split; try done.
  intros p Hp. by rewrite lookup_insert_ne.
Qed.

(** A successful send takes the job at the head of the queue and appends one
    outbound turn of role [system] to the recipient's history, creating the
    record if there is none; earlier turns and other recipients' records stay
    as they are, and the history file is written once. *)
Theorem sender_step_success now st phone text rest :
  send_queue st = (phone, text) :: rest →
  let st' := (sender_step SendOk now st).2 in
  histories st' !! phone
  = Some (default [] (histories st !! phone) ++ [system_turn text now])
  ∧ (∀ p, p ≠ phone → histories st' !! p = histories st !! p)
  ∧ send_queue st' = rest
  ∧ chats st' = chats st
  ∧ trace st' = trace st ++ [SaveHistories (histories st')].
Proof. apply sender_step_ok. Qed.

Lemma sender_run_cons o now turns st :
  (sender_run ((o, now) :: turns) st).2
  = (sender_run turns (sender_step o now st).2).2.
Proof.
  cbn [sender_run]. destruct (sender_step o now st) as [lines st1].
  cbn [snd]. by destruct (sender_run turns st1).
Qed.

(** The segments queued for a recipient are sent and recorded in the order
    of the queue: after as many successful sends as there are segments, the
    history has gained their turns in that order, and the rest of the queue
    is what remains. *)
Theorem sender_run_in_order phone chunks times rest st :
  send_queue st = map (pair phone) chunks ++ rest →
  length times = length chunks →
  let st' := (sender_run (map (pair SendOk) times) st).2 in
  histories st' !! phone
  = match chunks with
    | [] => histories st !! phone
    | _ :: _ =>
        Some (default [] (histories st !! phone)
                ++ zip_with system_turn chunks times)
    end
  ∧ (∀ p, p ≠ phone → histories st' !! p = histories st !! p)
  ∧ send_queue st' = rest.
Proof.
  revert times st. induction chunks as [|chunk chunks IH]; intros times st Hq Hlen.
  - by destruct times.
  - destruct times as [|now times]; [done|]. cbn [map] in *.
    cbn zeta. rewrite sender_run_cons.
    destruct (sender_step_ok now st phone chunk (map (pair phone) chunks ++ rest) Hq)
      as (Hh & Hother & Hq1 & _).
    destruct (IH times _ Hq1) as (Hh' & Hother' & Hq'); [by injection Hlen|].
    split; [|split; [|done]].
    + rewrite Hh', Hh. cbn [default from_option id zip_with].
      destruct chunks as [|chunk' chunks]; [by destruct times|].
      by rewrite <- app_assoc.
    + intros p Hp. by rewrite Hother', Hother.
Qed.

(** After [clear], the recipient has no record; once the confirmation that
    [clear] queued has been sent, the sender has recorded it, and the
    recipient has a record again, made of that one turn. *)
Theorem clear_then_send_registers st phone text now :
  str_lower (Py.strip text) = Py.lit "clear" →
  send_queue st = [] →
  let st1 := handle_incoming str_lower (Some phone) (Some text) st in
  let st2 := (sender_step SendOk now st1).2 in
  histories st1 !! phone = None
  ∧ histories st2 !! phone
    = Some [system_turn (Py.lit "Chat history cleared successfully") now]
  ∧ registered phone st2 = true.
Proof.
  intros Hk Hq. cbn zeta.
  destruct (handle_incoming_clear _ st phone text Hk) as (saves & Hrun & _).
  rewrite Hrun. set (st1 := mkState _ _ _ _ _ _ _).
  assert (Hq1 : send_queue st1
                = [(phone, Py.lit "Chat history cleared successfully")]).
  { subst st1. cbn [send_queue]. by rewrite Hq. }
  assert (Hn : histories st1 !! phone = None).
  { subst st1. cbn [histories]. apply lookup_delete_eq. }
  destruct (sender_step_ok now st1 phone _ [] Hq1) as (Hh & _).
  rewrite Hn in Hh. split; [done|]. split; [exact Hh|].
  apply registered_true. rewrite Hh. by eexists.
Qed.

(** ** Facade *)

(** [POST /send] queues the segments of the message for the recipient, in
    order and behind what the queue holds; each of them is non-empty and fits
    one message; nothing else of the store changes.  A blank message queues
    nothing and is answered with success all the same. *)
Theorem send_sms_queues_segments phone message st :
  ∃ chunks resp lines st',
    chunk_text_smart (Some message) = Some chunks
    ∧ send_sms phone message st = Some (resp, lines, st')
    ∧ send_queue st' = send_queue st ++ map (pair phone) chunks
    ∧ Forall (λ s, s ≠ []
                   ∧ (length s ≤ get_chunk_limit (Some s) false)%nat) chunks
    ∧ histories st' = histories st ∧ chats st' = chats st
    ∧ gemini_workers st' = gemini_workers st ∧ trace st' = trace st
    ∧ resp_status resp = "success"
    ∧ lines = [LogQueued phone (length chunks)].
Proof.
  destruct (chunk_text_smart_nonempty (Some message)) as (chunks & Hrun & Hne).
  pose proof (chunk_text_smart_fits_one_message _ _ Hrun) as Hfit.
  unfold send_sms. rewrite Hrun. cbn [mbind option_bind].
  eexists chunks, _, _, _. split; [done|]. split; [done|].
  rewrite enqueue_chunks_spec.
  cbn [histories chats processed_sms send_queue gemini_workers trace resp_status].
  repeat split; try done.
  rewrite Forall_forall in Hne, Hfit. apply Forall_forall. intros s Hs.
  split; [by apply Hne|by apply Hfit].
Qed.

(** [POST /register]: afterwards the recipient has a record, the one it had
    or an empty one; a confirmation is queued only for a new recipient, so
    that registering twice is registering once. *)
Theorem register_number_idempotent phone st :
  histories (register_number phone st).2
  = <[phone := default [] (histories st !! phone)]> (histories st)
  ∧ send_queue (register_number phone st).2
    = send_queue st
        ++ (if registered phone st then []
            else [(phone, Py.lit "Your number has been registered successfully.")])
  ∧ chats (register_number phone st).2 = chats st
  ∧ (register_number phone (register_number phone st).2).2
    = (register_number phone st).2.
Proof.
  assert (Hafter : registered phone (register_number phone st).2 = true).
  { unfold register_number. destruct (registered phone st) eqn:Hreg; [done|].
    apply registered_true. cbn [snd send_sms_raw save_histories set_histories emit
                                histories].
    rewrite lookup_insert_eq. by eexists. }
  split; [|split; [|split]].
  4: { unfold register_number at 1. by rewrite Hafter. }
  all: unfold register_number; destruct (registered phone st) eqn:Hreg;
    cbn [snd send_sms_raw save_histories set_histories emit
         histories chats send_queue]; try done.
  - apply registered_true in Hreg as [h Hh]. rewrite Hh.
    by rewrite insert_id.
  - apply registered_false in Hreg. by rewrite Hreg.
  - by rewrite app_nil_r.
Qed.

(** [DELETE /history] does to the store what the [clear] command does:
    the same records, chat handles and queues are left. *)
Theorem clear_history_as_command phone text st :
  str_lower (Py.strip text) = Py.lit "clear" →
  let st1 := (clear_history phone st).2 in
  let st2 := handle_incoming str_lower (Some phone) (Some text) st in
  histories st1 = histories st2
  ∧ chats st1 = chats st2
  ∧ send_queue st1 = send_queue st2
  ∧ gemini_workers st1 = gemini_workers st2
  ∧ processed_sms st1 = processed_sms st2
  ∧ histories st1 !! phone = None ∧ chats st1 !! phone = None.
Proof.
  intros Hk. cbn zeta.
  destruct (handle_incoming_clear _ st phone text Hk) as (saves & -> & _).
  cbn [histories chats processed_sms send_queue gemini_workers].
  unfold clear_history. cbn [snd].
  destruct (registered phone st) eqn:Hreg.
  - unfold save_histories, send_sms_raw, set_histories, set_chats, emit.
    cbn [histories chats processed_sms send_queue gemini_workers
         new_message_queue trace].
    case_bool_decide as Hc;
      cbn [histories chats processed_sms send_queue gemini_workers
           new_message_queue trace];
      rewrite ?lookup_delete_eq; repeat split; try done.
    all: rewrite <- eq_None_not_Some in Hc; by rewrite ?(delete_id _ _ Hc).
  - apply registered_false in Hreg.
    unfold send_sms_raw, set_chats.
    case_bool_decide as Hc;
      cbn [histories chats processed_sms send_queue gemini_workers
           new_message_queue trace];
      rewrite ?lookup_delete_eq, ?(delete_id _ _ Hreg); repeat split; try done.
    all: rewrite <- eq_None_not_Some in Hc; by rewrite ?(delete_id _ _ Hc).
Qed.

(** [POST /chat] registers on the way: where the router drops free text
    from a recipient without a record, the endpoint creates the record and
    queues the job, with the message as it came, untrimmed. *)
Theorem send_chat_message_registers phone message st :
  str_lower (Py.strip message) ≠ Py.lit "chat" →
  str_lower (Py.strip message) ≠ Py.lit "clear" →
  histories st !! phone = None →
  let st1 := (send_chat_message phone message st).2 in
  let st2 := handle_incoming str_lower (Some phone) (Some message) st in
  histories st1 !! phone = Some []
  ∧ gemini_workers st1 = gemini_workers st ++ [(phone, message)]
  ∧ send_queue st1 = send_queue st ++ [(phone, Py.lit "Thinking...")]
  ∧ histories st2 !! phone = None
  ∧ gemini_workers st2 = gemini_workers st
  ∧ send_queue st2 = send_queue st.
Proof.
  intros Hchat Hclear Hnew. cbn zeta.
  rewrite (handle_incoming_other_unregistered _ _ _ _ Hchat Hclear Hnew).
  unfold send_chat_message. rewrite (proj2 (registered_false _ _) Hnew).
  cbn [snd gemini_workers_put set_gemini_workers send_sms_raw save_histories
       set_histories emit histories chats processed_sms send_queue
       gemini_workers new_message_queue trace].
  by rewrite lookup_insert_eq.
Qed.

End FacadeProperties.

Section WorkerPollerProperties.

Context {chat : Type}.
Variable str_lower : list Z → list Z.
Implicit Types (st : @state chat) (phone text : list Z).

(** ** Chat handles *)

(** [ensure_chat] creates a handle at most once per recipient: a handle that
    exists is returned as it is, whatever the backend would answer, and the
    store is not touched; a handle just created is the one every later call
    returns; a failed creation leaves no handle behind. *)
Theorem ensure_chat_lazy (b : @backend chat) st phone :
  match ensure_chat b phone st with
  | inl (c, st') =>
      chats st' !! phone = Some c
      ∧ (∀ c0, chats st !! phone = Some c0 → c = c0 ∧ st' = st)
      ∧ (∀ p, p ≠ phone → chats st' !! p = chats st !! p)
      ∧ ∀ b', ensure_chat b' phone st' = inl (c, st')
  | inr st' =>
      chats st !! phone = None ∧ chats st' = chats st
      ∧ histories st' = histories st ∧ send_queue st' = send_queue st
  end.
Proof.
  unfold ensure_chat. destruct (chats st !! phone) as [c0|] eqn:Hc.
  - split; [done|]. split; [by intros ? [= <-]|]. split; [done|].
    intros b'. by rewrite Hc.
  - destruct (create_result b) as [c|]; [|done].
    destruct (prompt_result b); [|done].
    cbn [set_chats chats]. rewrite lookup_insert_eq.
    split; [done|]. split; [done|]. split.
    + intros p Hp. by rewrite lookup_insert_ne.
    + done.
Qed.

Lemma ensure_chat_succeeds (b : @backend chat) st phone :
  is_Some (chats st !! phone)
  ∨ (is_Some (create_result b) ∧ is_Some (prompt_result b)) →
  ∃ c st', ensure_chat b phone st = inl (c, st') ∧ chats st' !! phone = Some c.
Proof.
  intros Hok. unfold ensure_chat. destruct (chats st !! phone) as [c0|] eqn:Hc.
  - by exists c0, st.
  - destruct Hok as [[? [=]]|[[c ->] [u ->]]].
    eexists c, _. split; [done|]. cbn [set_chats chats].
    by rewrite lookup_insert_eq.
Qed.

(** ** Conversational worker, when the backend answers *)

Lemma gemini_job_answer (b : @backend chat) now st phone text r :
  send_result b = Some (Some r) →
  is_Some (chats st !! phone)
  ∨ (is_Some (create_result b) ∧ is_Some (prompt_result b)) →
  ∃ chunks st',
    chunk_text_smart (Some (Py.strip r)) = Some chunks
    ∧ gemini_job b now phone text st = Some st'
    ∧ histories st' !! phone
      = Some (default [] (histories st !! phone)
                ++ [mkTurn "user" text now "inbound";
                    mkTurn "assistant" (Py.strip r) (now + 1) "outbound"])
    ∧ (∀ p, p ≠ phone → histories st' !! p = histories st !! p)
    ∧ send_queue st' = send_queue st ++ map (pair phone) chunks
    ∧ is_Some (chats st' !! phone)
    ∧ gemini_workers st' = gemini_workers st
    ∧ trace st'
      = trace st ++ [SaveHistories (histories st');
                     Log (LogGeminiResponding phone (length chunks))].
Proof.
  intros Hsend Hok.
  destruct (ensure_chat_succeeds b st phone Hok) as (c & st0 & Hens & Hc).
  destruct (ensure_chat_ok _ _ _ _ _ Hens) as (Hh & Hs & Hg & Hp & Ht).
  destruct (chunk_text_smart_total (Some (Py.strip r))) as (chunks & Hrun).
  exists chunks. unfold gemini_job. rewrite Hens, Hsend, Hrun.
  cbn [mbind option_bind]. eexists. split; [done|]. split; [done|].
  rewrite enqueue_chunks_spec.
  cbn [log emit save_histories set_histories
       histories chats processed_sms send_queue gemini_workers
       new_message_queue trace].
  rewrite lookup_insert_eq, Hh, Hs, Hg, Ht, Hc, <- !app_assoc.
  repeat split; try done.
  all: try (intros p Hp'; by rewrite lookup_insert_ne).
  all: by eexists.
Qed.

(** The worker appends the user's turn and then the assistant's, stamped
    [now] and [now + 1], after the turns the recipient had (creating the
    record if there is none), writes the history file once, and queues the
    segments of the trimmed reply in order; other recipients' records are
    not touched. *)
Theorem gemini_job_success (b : @backend chat) now st phone text r :
  send_result b = Some (Some r) →
  is_Some (chats st !! phone)
  ∨ (is_Some (create_result b) ∧ is_Some (prompt_result b)) →
  ∃ chunks st',
    chunk_text_smart (Some (Py.strip r)) = Some chunks
    ∧ gemini_job b now phone text st = Some st'
    ∧ histories st' !! phone
      = Some (default [] (histories st !! phone)
                ++ [mkTurn "user" text now "inbound";
                    mkTurn "assistant" (Py.strip r) (now + 1) "outbound"])
    ∧ (∀ p, p ≠ phone → histories st' !! p = histories st !! p)
    ∧ send_queue st' = send_queue st ++ map (pair phone) chunks
    ∧ is_Some (chats st' !! phone)
    ∧ gemini_workers st' = gemini_workers st
    ∧ trace st'
      = trace st ++ [SaveHistories (histories st');
                     Log (LogGeminiResponding phone (length chunks))].
Proof. apply gemini_job_answer. Qed.

Lemma strip_Forall (P : Z → Prop) t : Forall P t → Forall P (Py.strip t).
Proof.
  intros Ht. unfold Py.strip. rewrite rstrip_rec_correct.
  by apply rstrip_rec_Forall, lstrip_Forall.
Qed.

Lemma strip_length t : (length (Py.strip t) ≤ length t)%nat.
Proof.
  unfold Py.strip. rewrite rstrip_rec_correct.
  pose proof (rstrip_rec_length (Py.lstrip t)). pose proof (lstrip_length t). lia.
Qed.

(** A reply of at most 160 characters, all in the GSM 7-bit set and not all
    blank, is queued as one message: the reply with its whitespace
    normalised. *)
Theorem gemini_job_short_reply (b : @backend chat) now st phone text r :
  send_result b = Some (Some r) →
  is_Some (chats st !! phone)
  ∨ (is_Some (create_result b) ∧ is_Some (prompt_result b)) →
  is_gsm_7bit (Some r) = true →
  (length r ≤ 160)%nat →
  normalize (Py.strip r) ≠ [] →
  ∃ st', gemini_job b now phone text st = Some st'
    ∧ send_queue st' = send_queue st ++ [(phone, normalize (Py.strip r))].
Proof.
  intros Hsend Hok Hgsm Hlen Hne.
  destruct (gemini_job_answer b now st phone text r Hsend Hok)
    as (chunks & st' & Hrun & Hjob & _ & _ & Hq & _).
  exists st'. split; [done|]. rewrite Hq.
  rewrite chunk_text_smart_single in Hrun; [by injection Hrun as <-|done|].
  assert (Hs : is_gsm_7bit (Some (Py.strip r)) = true).
  { apply is_gsm_7bit_iff, Forall_forall, strip_Forall, Forall_forall.
    by apply is_gsm_7bit_iff. }
  rewrite get_chunk_limit_table, (is_gsm_7bit_normalize _ Hs).
  pose proof (normalize_length (Py.strip r)). pose proof (strip_length r). lia.
Qed.

(** ** Poller *)

Lemma poll_item_passed_over st (m : sms) :
  passed_over m → poll_item str_lower m st = Done st.
Proof.
  unfold passed_over, poll_item. intros [Hid|[Hid|Htype]].
  - by rewrite Hid.
  - by rewrite Hid.
  - destruct (sms__id m) as [i|]; [|done].
    rewrite (bool_decide_eq_false_2 _ Htype). by rewrite andb_false_r.
Qed.

(** Items without an identifier, with an empty one or of a type other than
    [inbox] (those sent from the phone itself, say) have no effect at all,
    and are not even marked as processed. *)
Theorem sms_polling_loop_passed_over polls st :
  Forall (Forall passed_over) polls →
  sms_polling_loop str_lower polls st = st.
Proof.
  intros Hall. revert st. induction Hall as [|sms_list polls Hl _ IH]; intros st.
  - done.
  - cbn [sms_polling_loop].
    assert (Hcycle : poll_cycle str_lower sms_list st = st).
    { unfold poll_cycle. induction Hl as [|m rest Hm _ IHl]; [done|].
      cbn [poll_items]. rewrite (poll_item_passed_over st m Hm).
      exact IHl. }
    by rewrite Hcycle.
Qed.

Lemma poll_item_processed st (m : sms) sms_id :
  sms_id ∈ processed_sms st →
  sms_id ∈ processed_sms (final (poll_item str_lower m st)).
Proof.
  intros Hin. unfold poll_item.
  destruct (sms__id m) as [i|]; [|done].
  destruct (Py.truthy i && negb (bool_decide (i ∈ processed_sms st))
            && bool_decide (sms_type m = Some (Py.lit "inbox"))); [|done].
  destruct (sms_number m) as [phone|]; cbn [final].
  - match goal with
    | |- context [handle_incoming _ ?p ?t ?s] =>
        destruct (handle_incoming_frame str_lower s p t) as (_ & _ & _ & -> & _)
    end.
    cbn [emit new_message_queue_put save_processed_sms set_processed_sms
         processed_sms].
    apply elem_of_union. by right.
  - cbn [save_processed_sms set_processed_sms emit processed_sms].
    apply elem_of_union. by right.
Qed.

Lemma poll_cycle_processed sms_list st sms_id :
  sms_id ∈ processed_sms st →
  sms_id ∈ processed_sms (poll_cycle str_lower sms_list st).
Proof.
  intros Hin.
  assert (Hitems : sms_id ∈ processed_sms (final (poll_items str_lower sms_list st))).
  { revert st Hin. induction sms_list as [|m rest IH]; intros st Hin; [done|].
    cbn [poll_items]. pose proof (poll_item_processed st m sms_id Hin) as Hm.
    destruct (poll_item str_lower m st) as [st'|st']; cbn [final] in *; auto. }
  unfold poll_cycle.
  by destruct (poll_items str_lower sms_list st).
Qed.

Lemma sms_polling_loop_budget_final polls st sms_id :
  (forward_budget sms_id (sms_polling_loop str_lower polls st)
   ≤ forward_budget sms_id st)%nat.
Proof.
  revert st. induction polls as [|sms_list polls IH]; intros st; [done|].
  cbn [sms_polling_loop].
  pose proof (poll_cycle_budget str_lower sms_list st sms_id).
  specialize (IH (poll_cycle str_lower sms_list st)). lia.
Qed.

(** The set of processed identifiers only grows, and the router is called
    for no identifier that is not put into it: an identifier for which the
    poller has called the router is in the set. *)
Theorem sms_polling_loop_processed polls st sms_id :
  (sms_id ∈ processed_sms st →
   sms_id ∈ processed_sms (sms_polling_loop str_lower polls st))
  ∧ ((forwards sms_id (trace st)
      < forwards sms_id (trace (sms_polling_loop str_lower polls st)))%nat →
     sms_id ∈ processed_sms (sms_polling_loop str_lower polls st)).
Proof.
  split.
  - revert st. induction polls as [|sms_list polls IH]; intros st Hin; [done|].
    cbn [sms_polling_loop]. by apply IH, poll_cycle_processed.
  - intros Hmore.
    pose proof (sms_polling_loop_budget_final polls st sms_id) as Hb.
    unfold forward_budget in Hb.
    destruct (decide (sms_id ∈ processed_sms (sms_polling_loop str_lower polls st)))
      as [|Hout]; [done|].
    rewrite (bool_decide_eq_false_2 _ Hout) in Hb.
    destruct (bool_decide (sms_id ∈ processed_sms st)); lia.
Qed.

(** An inbound message without a sender is marked as processed and then
    lost: building the [SMSMessage] raises, so the router is not called for
    it, the rest of the poll is given up, and since the identifier is in the
    set no later poll forwards it either. *)
Theorem poll_message_without_number st (m : sms) sms_id rest :
  sms__id m = Some sms_id →
  Py.truthy sms_id = true →
  sms_type m = Some (Py.lit "inbox") →
  sms_number m = None →
  sms_id ∉ processed_sms st →
  let st1 := poll_cycle str_lower (m :: rest) st in
  processed_sms st1 = {[ sms_id ]} ∪ processed_sms st
  ∧ histories st1 = histories st
  ∧ send_queue st1 = send_queue st
  ∧ gemini_workers st1 = gemini_workers st
  ∧ new_message_queue st1 = new_message_queue st
  ∧ trace st1
    = trace st ++ [SaveProcessed ({[ sms_id ]} ∪ processed_sms st);
                   Log LogPollingError]
  ∧ ∀ polls,
      forwards sms_id (trace (sms_polling_loop str_lower ((m :: rest) :: polls) st))
      = forwards sms_id (trace st).
Proof.
  intros Hid Htruthy Htype Hphone Hfresh.
  assert (Hitem : poll_item str_lower m st
                  = Raised (save_processed_sms
                              (set_processed_sms ({[ sms_id ]} ∪ processed_sms st) st))).
  { unfold poll_item. rewrite Hid, Htruthy, Htype, Hphone.
    by rewrite (bool_decide_eq_false_2 _ Hfresh), bool_decide_eq_true_2. }
  cbn zeta. unfold poll_cycle at 1 2 3 4 5 6. cbn [poll_items]. rewrite Hitem.
  cbn [log emit save_processed_sms set_processed_sms
       histories chats processed_sms send_queue gemini_workers
       new_message_queue trace].
  rewrite <- app_assoc. repeat split; try done.
  intros polls. cbn [sms_polling_loop].
  set (st1 := poll_cycle str_lower (m :: rest) st).
  assert (Hst1 : forwards sms_id (trace st1) = forwards sms_id (trace st)
                 ∧ sms_id ∈ processed_sms st1).
  { subst st1. unfold poll_cycle. cbn [poll_items]. rewrite Hitem.
    cbn [log emit save_processed_sms set_processed_sms processed_sms trace].
    rewrite !forwards_app. cbn [forwards is_forward_of]. split; [lia|].
    apply elem_of_union. left. by apply elem_of_singleton. }
  destruct Hst1 as [Hf Hin]. apply Nat.le_antisymm.
  - pose proof (sms_polling_loop_budget str_lower polls st1 sms_id) as Hb.
    unfold forward_budget in Hb. rewrite (bool_decide_eq_true_2 _ Hin) in Hb. lia.
  - destruct (sms_polling_loop_trace str_lower polls st1) as (evs & ->).
    rewrite forwards_app. lia.
Qed.

Lemma published_app sms_id q1 q2 :
  published sms_id (q1 ++ q2) = (published sms_id q1 + published sms_id q2)%nat.
Proof. induction q1 as [|m q1 IH]; simpl; [done|]. rewrite IH. lia. Qed.

Lemma poll_item_published st (m : sms) sms_id :
  (published sms_id (new_message_queue (final (poll_item str_lower m st)))
   + forwards sms_id (trace st)
   = published sms_id (new_message_queue st)
     + forwards sms_id (trace (final (poll_item str_lower m st))))%nat.
Proof.
  unfold poll_item.
  destruct (sms__id m) as [i|]; [|done].
  destruct (Py.truthy i && negb (bool_decide (i ∈ processed_sms st))
            && bool_decide (sms_type m = Some (Py.lit "inbox"))); [|done].
  destruct (sms_number m) as [phone|]; cbn [final].
  - match goal with
    | |- context [handle_incoming _ ?p ?t ?s] =>
        destruct (handle_incoming_frame str_lower s p t)
          as (evs & -> & Hevs & _ & ->)
    end.
    cbn [emit new_message_queue_put save_processed_sms set_processed_sms
         new_message_queue trace].
    rewrite published_app, !forwards_app, (forwards_router_events _ _ Hevs).
    cbn [published forwards is_forward_of msg_id]. lia.
  - cbn [save_processed_sms set_processed_sms emit new_message_queue trace].
    rewrite forwards_app. cbn [forwards is_forward_of]. lia.
Qed.

(** Every message handed to the router has been published to the API
    consumers, once, and nothing else is published: for each identifier the
    queue of new messages grows by as many items as the router is called. *)
Theorem sms_polling_loop_published polls st sms_id :
  (published sms_id (new_message_queue (sms_polling_loop str_lower polls st))
   + forwards sms_id (trace st)
   = published sms_id (new_message_queue st)
     + forwards sms_id (trace (sms_polling_loop str_lower polls st)))%nat.
Proof.
  revert st. induction polls as [|sms_list polls IH]; intros st; [done|].
  cbn [sms_polling_loop].
  assert (Hcycle :
    (published sms_id (new_message_queue (poll_cycle str_lower sms_list st))
     + forwards sms_id (trace st)
     = published sms_id (new_message_queue st)
       + forwards sms_id (trace (poll_cycle str_lower sms_list st)))%nat).
  { assert (Hitems : ∀ l (s : @state chat),
      (published sms_id (new_message_queue (final (poll_items str_lower l s)))
       + forwards sms_id (trace s)
       = published sms_id (new_message_queue s)
         + forwards sms_id (trace (final (poll_items str_lower l s))))%nat).
    { induction l as [|m rest IHl]; intros s; [done|].
      cbn [poll_items]. pose proof (poll_item_published s m sms_id) as Hm.
      destruct (poll_item str_lower m s) as [s'|s']; cbn [final] in *; [|done].
      specialize (IHl s'). lia. }
    unfold poll_cycle. specialize (Hitems sms_list st).
    destruct (poll_items str_lower sms_list st) as [s'|s']; cbn [final] in Hitems;
      [done|].
    cbn [log emit new_message_queue trace]. rewrite forwards_app.
    cbn [forwards is_forward_of]. lia. }
  specialize (IH (poll_cycle str_lower sms_list st)). lia.
Qed.

End WorkerPollerProperties.

(** ** The further properties at sample inputs *)

Lemma handle_incoming_other_recipients_witness :
  histories (handle_incoming lower_ascii (Some other_phone)
               (Some (Py.lit "clear")) busy_state) !! sample_phone
  = histories busy_state !! sample_phone.
Proof.
  apply (handle_incoming_other_recipients lower_ascii busy_state other_phone
           (Py.lit "clear") sample_phone).
  vm_compute. discriminate.
Defined.

Lemma handle_incoming_free_text_witness :
  gemini_workers (handle_incoming lower_ascii (Some sample_phone)
                    (Some (Py.lit " What's the weather ")) chatting_state)
  = [(sample_phone, Py.lit "What's the weather")].
Proof.
  pose proof (handle_incoming_free_text lower_ascii chatting_state sample_phone
                (Py.lit " What's the weather ")) as H.
  cbv zeta in H. destruct H as (_ & _ & _ & _ & H & _).
  - vm_compute. discriminate.
  - vm_compute. discriminate.
  - vm_compute. by eexists.
  - exact H.
Defined.

Lemma sender_step_failure_witness :
  histories (sender_step SendTimeout 5 queued_state).2 = histories queued_state
  ∧ send_queue (sender_step SendTimeout 5 queued_state).2
    = tail (send_queue queued_state).
Proof.
  pose proof (sender_step_failure SendTimeout 5 queued_state) as H.
  cbv zeta in H. destruct H as (Hh & _ & _ & _ & _ & Hq).
  - unfold send_fails. discriminate.
  - split; [exact Hh|exact Hq].
Defined.

Lemma sender_step_success_witness :
  histories (sender_step SendOk 5 queued_state).2 !! sample_phone
  = Some (default [] (histories queued_state !! sample_phone)
            ++ [system_turn (Py.lit "one") 5]).
Proof.
  pose proof (sender_step_success 5 queued_state sample_phone (Py.lit "one")
                [(sample_phone, Py.lit "two"); (other_phone, Py.lit "three")]
                eq_refl) as H.
  cbv zeta in H. destruct H as (H & _). exact H.
Defined.

Lemma sender_run_in_order_witness :
  histories (sender_run [(SendOk, 5); (SendOk, 7)] queued_state).2 !! sample_phone
  = Some [system_turn (Py.lit "one") 5; system_turn (Py.lit "two") 7]
  ∧ send_queue (sender_run [(SendOk, 5); (SendOk, 7)] queued_state).2
    = [(other_phone, Py.lit "three")].
Proof.
  pose proof (sender_run_in_order sample_phone [Py.lit "one"; Py.lit "two"] [5; 7]
                [(other_phone, Py.lit "three")] queued_state eq_refl eq_refl) as H.
  cbv zeta in H. destruct H as (Hh & _ & Hq). split; [exact Hh|exact Hq].
Defined.

Lemma clear_then_send_registers_witness :
  registered sample_phone
    (sender_step SendOk 9
       (handle_incoming lower_ascii (Some sample_phone) (Some (Py.lit "Clear"))
          chatting_state)).2
  = true.
Proof.
  pose proof (clear_then_send_registers lower_ascii chatting_state sample_phone
                (Py.lit "Clear") 9 eq_refl eq_refl) as H.
  cbv zeta in H. destruct H as (_ & _ & H). exact H.
Defined.

Lemma clear_history_as_command_witness :
  histories (clear_history sample_phone busy_state).2
  = histories (handle_incoming lower_ascii (Some sample_phone)
                 (Some (Py.lit "CLEAR")) busy_state).
Proof.
  pose proof (clear_history_as_command lower_ascii sample_phone (Py.lit "CLEAR")
                busy_state eq_refl) as H.
  cbv zeta in H. destruct H as (H & _). exact H.
Defined.

Lemma send_chat_message_registers_witness :
  histories (send_chat_message sample_phone (Py.lit " hi ") empty_state).2
    !! sample_phone = Some []
  ∧ gemini_workers (send_chat_message sample_phone (Py.lit " hi ") empty_state).2
    = [(sample_phone, Py.lit " hi ")].
Proof.
  pose proof (send_chat_message_registers lower_ascii sample_phone (Py.lit " hi ")
                empty_state) as H.
  cbv zeta in H. destruct H as (Hh & Hg & _).
  - vm_compute. discriminate.
  - vm_compute. discriminate.
  - reflexivity.
  - split; [exact Hh|exact Hg].
Defined.

Lemma ensure_chat_lazy_witness :
  ensure_chat failing_backend sample_phone chatting_state
  = inl (7%nat, chatting_state).
Proof.
  pose proof (ensure_chat_lazy failing_backend chatting_state sample_phone) as H.
  destruct (ensure_chat failing_backend sample_phone chatting_state)
    as [[c st']|st'].
  - destruct H as (_ & H & _). destruct (H 7%nat eq_refl) as [-> ->]. reflexivity.
  - destruct H as (H & _). vm_compute in H. discriminate.
Defined.

Lemma gemini_job_success_witness :
  ∃ chunks st',
    chunk_text_smart (Some (Py.strip (Py.lit " It's sunny, 25C "))) = Some chunks
    ∧ gemini_job replying_backend 100 sample_phone (Py.lit "What's the weather")
        chatting_state = Some st'
    ∧ histories st' !! sample_phone
      = Some (default [] (histories chatting_state !! sample_phone)
                ++ [mkTurn "user" (Py.lit "What's the weather") 100 "inbound";
                    mkTurn "assistant" (Py.strip (Py.lit " It's sunny, 25C "))
                           (100 + 1) "outbound"])
    ∧ send_queue st' = send_queue chatting_state ++ map (pair sample_phone) chunks.
Proof.
  destruct (gemini_job_success replying_backend 100 chatting_state sample_phone
              (Py.lit "What's the weather") (Py.lit " It's sunny, 25C ") eq_refl)
    as (chunks & st' & H1 & H2 & H3 & _ & H5 & _).
  - left. vm_compute. by eexists.
  - exists chunks, st'. repeat split; assumption.
Defined.

Lemma gemini_job_short_reply_witness :
  ∃ st',
    gemini_job replying_backend 100 sample_phone (Py.lit "What's the weather")
      chatting_state = Some st'
    ∧ send_queue st'
      = send_queue chatting_state
          ++ [(sample_phone, normalize (Py.strip (Py.lit " It's sunny, 25C ")))].
Proof.
  apply (gemini_job_short_reply replying_backend 100 chatting_state sample_phone
           (Py.lit "What's the weather") (Py.lit " It's sunny, 25C ") eq_refl).
  - left. vm_compute. by eexists.
  - vm_compute. reflexivity.
  - vm_compute. lia.
  - vm_compute. discriminate.
Defined.

Lemma sms_polling_loop_passed_over_witness :
  sms_polling_loop lower_ascii [[sms_sent]; [sms_sent; sms_sent]] empty_state
  = empty_state.
Proof.
  apply (sms_polling_loop_passed_over lower_ascii).
  assert (Hsent : passed_over sms_sent).
  { right. right. vm_compute. discriminate. }
  repeat (apply Forall_cons_2 || apply Forall_nil_2); exact Hsent.
Defined.

Lemma sms_polling_loop_processed_witness :
  Py.lit "17"
  ∈ processed_sms (sms_polling_loop lower_ascii [[sample_sms]] empty_state).
Proof.
  apply (sms_polling_loop_processed lower_ascii [[sample_sms]] empty_state
           (Py.lit "17")).
  vm_compute. lia.
Defined.

Lemma poll_message_without_number_witness :
  forwards (Py.lit "18")
    (trace (sms_polling_loop lower_ascii
              [[sms_without_number; sample_sms]; [sms_without_number]]
              empty_state))
  = forwards (Py.lit "18") (trace empty_state).
Proof.
  pose proof (poll_message_without_number lower_ascii empty_state
                sms_without_number (Py.lit "18") [sample_sms]
                eq_refl eq_refl eq_refl eq_refl (not_elem_of_empty _)) as H.
  cbv zeta in H. destruct H as (_ & _ & _ & _ & _ & _ & H).
  exact (H [[sms_without_number]]).
Defined.

(** ** An inbound message that never reaches the router *)

(** C7, at the failing input.  An inbox item with a new identifier and no
    [number] is presented in two successive polls.  The first poll puts the
    identifier into the processed set and writes the set; then building the
    [SMSMessage] raises, nothing is published and the router is not called.
    The second poll finds the identifier in the set and skips the item.  So
    the router is called for this identifier not once but never, although the
    router itself takes a missing sender and returns without effect. *)
Theorem poll_twice_without_number :
  forwards (Py.lit "18")
    (trace (sms_polling_loop lower_ascii
              [[sms_without_number]; [sms_without_number]] empty_state))
  = 0%nat
  ∧ Py.lit "18"
    ∈ processed_sms (sms_polling_loop lower_ascii
                       [[sms_without_number]; [sms_without_number]] empty_state)
  ∧ new_message_queue (sms_polling_loop lower_ascii
                         [[sms_without_number]; [sms_without_number]] empty_state)
    = []
  ∧ trace (sms_polling_loop lower_ascii
             [[sms_without_number]; [sms_without_number]] empty_state)
    = [SaveProcessed ({[ Py.lit "18" ]} ∪ ∅); Log LogPollingError]
  ∧ poll_item lower_ascii sms_without_number
      (poll_cycle lower_ascii [sms_without_number] empty_state)
    = Done (poll_cycle lower_ascii [sms_without_number] empty_state)
  ∧ handle_incoming lower_ascii None (Some (Py.lit "hello")) empty_state
    = empty_state.
Proof.
  assert (Hfirst : poll_cycle lower_ascii [sms_without_number] empty_state
                   = mkState ∅ ∅ ({[ Py.lit "18" ]} ∪ ∅) [] [] []
                       [SaveProcessed ({[ Py.lit "18" ]} ∪ ∅);
                        Log LogPollingError]).
  { unfold poll_cycle. cbn [poll_items]. unfold poll_item.
    cbn [sms_without_number sms__id sms_number sms_body sms_type Py.truthy].
    rewrite bool_decide_eq_false_2 by apply not_elem_of_empty.
    rewrite bool_decide_eq_true_2 by done. reflexivity. }
  assert (Hin : Py.lit "18" ∈ ({[ Py.lit "18" ]} ∪ ∅ : gset (list Z))).
  { apply elem_of_union. left. by apply elem_of_singleton. }
  assert (Hsecond : poll_item lower_ascii sms_without_number
                      (poll_cycle lower_ascii [sms_without_number] empty_state)
                    = Done (poll_cycle lower_ascii [sms_without_number] empty_state)).
  { apply (poll_item_seen lower_ascii _ sms_without_number (Py.lit "18"));
      [done|]. by rewrite Hfirst. }
  assert (Hloop : sms_polling_loop lower_ascii
                    [[sms_without_number]; [sms_without_number]] empty_state
                  = poll_cycle lower_ascii [sms_without_number] empty_state).
  { cbn [sms_polling_loop].
    by rewrite (poll_cycle_single lower_ascii _ _ _ Hsecond). }
  rewrite Hloop. split; [|split; [|split; [|split; [|split]]]]; try done.
  all: by rewrite Hfirst.
Qed.
